(** * Fitness Training Manager: the local data store of [src/js/app.js]

    A shallow embedding of the store part of [src/js/app.js] (the current
    snapshot, lines 1-598): the global [state] object, [generateId],
    [migrateState], [loadState], the restore handler, the client delete
    handler and the progress/calendar form handlers.

    JavaScript values are modelled by [value].  Objects are insertion-ordered
    association lists (the JSON documents the app reads have integer-like keys
    only where JSON.parse already put them first).  Arrays carry, besides
    their elements, the named properties a script may add to them
    ([client.id = ...] on an array client).  Numbers are modelled by their
    integer values (NaN, infinities and fractions are not represented).

    [src/js/app.js] holds two snapshots of the app one after the other
    (lines 1-598 and 599-1107); the development follows the first, the one
    with [migrateState] and [generateId], and module [Legacy] models the
    client delete of the second. *)

Set Warnings "-register-all".
From Stdlib Require Import String Ascii List ZArith Bool Lia.
Import ListNotations.
Open Scope string_scope.

Module Js.

Inductive value : Type :=
| VUndef
| VNull
| VBool (b : bool)
| VNum (n : Z)
| VStr (s : string)
| VArr (elems : list value) (props : list (string * value))
| VObj (fields : list (string * value)).

Definition fields := list (string * value).

(** First binding of a key in a property list. *)
Fixpoint assoc (k : string) (fs : fields) : option value :=
  match fs with
  | [] => None
  | (k', v) :: r => if String.eqb k k' then Some v else assoc k r
  end.

(** [o[k] = v] on a property list: an existing key keeps its position,
    a new key is appended. *)
Fixpoint assoc_set (k : string) (v : value) (fs : fields) : fields :=
  match fs with
  | [] => [(k, v)]
  | (k', v') :: r =>
      if String.eqb k k' then (k, v) :: r else (k', v') :: assoc_set k v r
  end.

(** Property read [o.k]: [None] is the TypeError raised on [null] and
    [undefined]; a missing property reads as [undefined]. *)
Definition get (o : value) (k : string) : option value :=
  match o with
  | VUndef | VNull => None
  | VObj fs => Some (match assoc k fs with Some v => v | None => VUndef end)
  | VArr _ ps => Some (match assoc k ps with Some v => v | None => VUndef end)
  | _ => Some VUndef
  end.

(** Property read on a value known not to be [null]/[undefined]. *)
Definition get_or_undef (o : value) (k : string) : value :=
  match get o k with Some v => v | None => VUndef end.

(** Property write [o.k = v] in sloppy mode: silently ignored on
    primitives.  Every write of the program is preceded by a read of the same
    object, so the TypeError on [null]/[undefined] is raised by that read. *)
Definition set (o : value) (k : string) (v : value) : value :=
  match o with
  | VObj fs => VObj (assoc_set k v fs)
  | VArr l ps => VArr l (assoc_set k v ps)
  | _ => o
  end.

(** [Boolean(v)]. *)
Definition truthy (v : value) : bool :=
  match v with
  | VUndef | VNull => false
  | VBool b => b
  | VNum n => negb (Z.eqb n 0)
  | VStr s => negb (String.eqb s "")
  | VArr _ _ | VObj _ => true
  end.

(** [typeof v === 'number']. *)
Definition is_number (v : value) : bool :=
  match v with VNum _ => true | _ => false end.

(** Decimal rendering of a natural number (array indices as keys). *)
Fixpoint digits_aux (fuel n : nat) (acc : string) : string :=
  match fuel with
  | O => acc
  | S f =>
      let d := String (ascii_of_nat (48 + Nat.modulo n 10)) "" in
      if Nat.ltb n 10 then d ++ acc else digits_aux f (Nat.div n 10) (d ++ acc)
  end.

Definition nat_to_string (n : nat) : string := digits_aux (S n) n "".

Definition Z_to_string (z : Z) : string :=
  match z with
  | Zneg p => "-" ++ nat_to_string (Pos.to_nat p)
  | _ => nat_to_string (Z.to_nat z)
  end.

Fixpoint indexed_from {A} (i : nat) (l : list A) : list (string * A) :=
  match l with
  | [] => []
  | x :: r => (nat_to_string i, x) :: indexed_from (S i) r
  end.

Fixpoint string_chars (s : string) : list value :=
  match s with
  | EmptyString => []
  | String c r => VStr (String c EmptyString) :: string_chars r
  end.

(** Own enumerable properties, as copied by [{ ...v }] and by object rest
    destructuring: array and string indices first, then named keys;
    nothing for [null], [undefined], numbers and booleans. *)
Definition spread (v : value) : fields :=
  match v with
  | VObj fs => fs
  | VArr l ps => app (indexed_from 0 l) ps
  | VStr s => indexed_from 0 (string_chars s)
  | _ => []
  end.

(** Remove a key from a property list. *)
Definition remove_key (k : string) (fs : fields) : fields :=
  filter (fun kv => negb (String.eqb k (fst kv))) fs.

(** Structural equality of values. *)
Fixpoint value_eqb (a b : value) : bool :=
  match a, b with
  | VUndef, VUndef | VNull, VNull => true
  | VBool x, VBool y => Bool.eqb x y
  | VNum x, VNum y => Z.eqb x y
  | VStr x, VStr y => String.eqb x y
  | VArr l1 p1, VArr l2 p2 =>
      (fix eql (l1 l2 : list value) : bool :=
         match l1, l2 with
         | [], [] => true
         | x :: r1, y :: r2 => value_eqb x y && eql r1 r2
         | _, _ => false
         end) l1 l2 &&
      (fix eqf (f1 f2 : fields) : bool :=
         match f1, f2 with
         | [], [] => true
         | (k1, x) :: r1, (k2, y) :: r2 =>
             String.eqb k1 k2 && value_eqb x y && eqf r1 r2
         | _, _ => false
         end) p1 p2
  | VObj f1, VObj f2 =>
      (fix eqf (f1 f2 : fields) : bool :=
         match f1, f2 with
         | [], [] => true
         | (k1, x) :: r1, (k2, y) :: r2 =>
             String.eqb k1 k2 && value_eqb x y && eqf r1 r2
         | _, _ => false
         end) f1 f2
  | _, _ => false
  end.

(** [a === b].  On primitives this is value equality.  JavaScript compares
    objects and arrays by reference; this value model has no object
    identity, so compound values are compared structurally.  The two agree
    whenever one side is a primitive, which is the case for the string ids
    [generateId] produces. *)
Definition strict_eq (a b : value) : bool := value_eqb a b.

(** [has o k v]: the object (or array) [o] has own property [k] bound to [v]. *)
Definition has (o : value) (k : string) (v : value) : Prop :=
  match o with
  | VObj fs => assoc k fs = Some v
  | VArr _ ps => assoc k ps = Some v
  | _ => False
  end.

(** Objects and arrays: the values a property write changes. *)
Definition is_container (o : value) : Prop :=
  match o with VObj _ | VArr _ _ => True | _ => False end.

End Js.

Module App.
Import Js.

(** ** Identifier generator ([generateId], lines 107-112)

    [generateId] is nondeterministic: [crypto.randomUUID()] when the
    browser offers it, otherwise [`${prefix}-${Date.now()}-${r}`] with
    [r = Math.floor(Math.random() * 10000)].  The environment is an
    [entropy] record read at the call counter [k]; each call consumes one
    counter value. *)
Record entropy := {
  randomUUID_available : bool;
  randomUUID : nat -> string;
  date_now : nat -> Z;
  random_below_10000 : nat -> Z
}.

Definition generateId (e : entropy) (prefix : string) (k : nat) : string :=
  if randomUUID_available e then randomUUID e k
  else prefix ++ "-" ++ Z_to_string (date_now e k) ++ "-"
       ++ Z_to_string (random_below_10000 e k).

(** [crypto.randomUUID()] returns a 36-character UUID string. *)
Definition entropy_wf (e : entropy) : Prop :=
  forall k, String.length (randomUUID e k) = 36.

(** How a JavaScript statement sequence ended. *)
Inductive completion := Normal | Thrown.

Fixpoint map_exn {A B} (f : A -> option B) (l : list A) : option (list B) :=
  match l with
  | [] => Some []
  | x :: r =>
      match f x with
      | None => None
      | Some y => match map_exn f r with None => None | Some r' => Some (y :: r') end
      end
  end.

(** ** Migration engine ([migrateState], lines 114-145) *)

(** Callback of [state.clients.map((client, index) => ...)]: assigns a
    fresh id to a client whose id is falsy (in place on the client object). *)
Definition migrate_client (e : entropy) (k : nat) (client : value)
  : option (value * nat) :=
  match get client "id" with
  | None => None
  | Some id =>
      if truthy id then Some (client, k)
      else Some (set client "id" (VStr (generateId e "client" k)), S k)
  end.

(** The clients pass.  Returns the client sequence (on a throw: the clients
    already visited carry their new ids, the rest are untouched), the
    [indexToId] map as the list of [client.id] values by index, the counter
    and how the pass ended. *)
Fixpoint migrate_clients (e : entropy) (k : nat) (cs : list value)
  : list value * list value * nat * completion :=
  match cs with
  | [] => ([], [], k, Normal)
  | c :: rest =>
      match migrate_client e k c with
      | None => (c :: rest, [], k, Thrown)
      | Some (c', k1) =>
          let '(rest', ids, k2, r) := migrate_clients e k1 rest in
          (c' :: rest', get_or_undef c' "id" :: ids, k2, r)
      end
  end.

(** [indexToId.get(n)]: the map holds the keys [0 .. length-1]. *)
Definition index_lookup (ids : list value) (n : Z) : option value :=
  if Z.leb 0 n then nth_error ids (Z.to_nat n) else None.

Definition map_get (ids : list value) (key : value) : value :=
  match key with
  | VNum n => match index_lookup ids n with Some v => v | None => VUndef end
  | _ => VUndef
  end.

(** First callback of [state.progress.map(record => ...)] (and of the
    identical [state.events] pass). *)
Definition resolve_record (ids : list value) (record : value) : option value :=
  match get record "clientId" with
  | None => None
  | Some cid =>
      if negb (truthy cid) && is_number (get_or_undef record "clientIndex") then
        let clientId := map_get ids (get_or_undef record "clientIndex") in
        if truthy clientId
        then Some (VObj (assoc_set "clientId" clientId (spread record)))
        else Some VNull
      else Some record
  end.

(** [({ clientIndex, ...rest }) => rest]. *)
Definition drop_clientIndex (record : value) : option value :=
  match record with
  | VUndef | VNull => None
  | _ => Some (VObj (remove_key "clientIndex" (spread record)))
  end.

(** [records.map(resolve).filter(Boolean).map(drop_clientIndex)]. *)
Definition migrate_records (ids : list value) (records : list value)
  : option (list value) :=
  match map_exn (resolve_record ids) records with
  | None => None
  | Some l1 => map_exn drop_clientIndex (filter truthy l1)
  end.

(** [coll.map(...)...] on [state.progress] or [state.events]: only an
    array has [map]; the result is a fresh array. *)
Definition migrate_collection (ids : list value) (coll : value) : option value :=
  match coll with
  | VArr l _ =>
      match migrate_records ids l with Some l' => Some (VArr l' []) | None => None end
  | _ => None
  end.

(** [migrateState()] on the global [state], with the generator counter.
    A throw leaves the assignments already made. *)
Definition migrateState (e : entropy) (k : nat) (state : value)
  : value * nat * completion :=
  match get state "clients" with
  | Some (VArr cs ps) =>
      let '(cs', ids, k1, r) := migrate_clients e k cs in
      match r with
      | Thrown => (set state "clients" (VArr cs' ps), k1, Thrown)
      | Normal =>
          let st1 := set state "clients" (VArr cs' []) in
          match migrate_collection ids (get_or_undef st1 "progress") with
          | None => (st1, k1, Thrown)
          | Some p =>
              let st2 := set st1 "progress" p in
              match migrate_collection ids (get_or_undef st2 "events") with
              | None => (st2, k1, Thrown)
              | Some ev => (set st2 "events" ev, k1, Normal)
              end
          end
      end
  | _ => (state, k, Thrown)
  end.

(** ** Initial state (lines 11-21) *)
Definition default_settings : value :=
  VObj [("theme", VStr "light"); ("language", VStr "en")].

Definition initial_state : value :=
  VObj [("clients", VArr [] []); ("programs", VArr [] []);
        ("exercises", VArr [] []); ("progress", VArr [] []);
        ("events", VArr [] []); ("settings", default_settings)].

(** ** JSON text as the host handles it

    [JSON.parse(JSON.stringify(v))]: keys holding [undefined] are dropped,
    [undefined] array elements become [null], and named properties of
    arrays are not serialised. *)
Fixpoint json_roundtrip (v : value) : value :=
  match v with
  | VArr l _ =>
      VArr ((fix go (l : list value) : list value :=
               match l with
               | [] => []
               | VUndef :: r => VNull :: go r
               | x :: r => json_roundtrip x :: go r
               end) l) []
  | VObj fs =>
      VObj ((fix go (fs : fields) : fields :=
               match fs with
               | [] => []
               | (_, VUndef) :: r => go r
               | (k, x) :: r => (k, json_roundtrip x) :: go r
               end) fs)
  | _ => v
  end.

(** Values a JSON text denotes: no [undefined] and no named array
    properties anywhere. *)
Fixpoint json_data (v : value) : bool :=
  match v with
  | VUndef => false
  | VArr l ps =>
      (fix go (l : list value) : bool :=
         match l with [] => true | x :: r => json_data x && go r end) l &&
      match ps with [] => true | _ => false end
  | VObj fs =>
      (fix go (fs : fields) : bool :=
         match fs with [] => true | (_, x) :: r => json_data x && go r end) fs
  | _ => true
  end.

(** The result of [JSON.parse] on a text. *)
Inductive parse_result := ParseError | Parsed (doc : value).

(** [exportState]: the backup button serialises [state] with
    [JSON.stringify] (line 540); restoring that file parses it back. *)
Definition exportState (state : value) : parse_result :=
  Parsed (json_roundtrip state).

(** ** ToString of a value (template literals, DOMString attributes)

    A JSON value is never callable.  An object with an own [toString] key
    therefore has neither a usable [toString] nor a [valueOf] giving a
    primitive ([Object.prototype.valueOf] returns the object itself, and an
    own [valueOf] is not callable either): ToString throws a TypeError
    ([None]).  Otherwise a plain object gives ["[object Object]"].  An array
    converts through [Array.prototype.join] (nullish elements as the empty
    string), unless an own [join] key hides it, in which case
    [Object.prototype.toString] gives ["[object Array]"]. *)
Definition own (k : string) (fs : fields) : bool :=
  match assoc k fs with Some _ => true | None => false end.

Fixpoint to_string_exn (v : value) : option string :=
  match v with
  | VUndef => Some "undefined"
  | VNull => Some "null"
  | VBool true => Some "true"
  | VBool false => Some "false"
  | VNum n => Some (Z_to_string n)
  | VStr s => Some s
  | VArr l ps =>
      if own "toString" ps then None
      else if own "join" ps then Some "[object Array]"
      else
        (fix go (l : list value) : option string :=
           match l with
           | [] => Some ""
           | [x] => match x with VUndef | VNull => Some "" | _ => to_string_exn x end
           | x :: r =>
               match match x with VUndef | VNull => Some "" | _ => to_string_exn x end,
                     go r with
               | Some a, Some b => Some (a ++ "," ++ b)
               | _, _ => None
               end
           end) l
  | VObj fs => if own "toString" fs then None else Some "[object Object]"
  end.

(** [arr.join(sep)] on the elements of an array. *)
Fixpoint array_join (sep : string) (l : list value) : option string :=
  match l with
  | [] => Some ""
  | [x] => match x with VUndef | VNull => Some "" | _ => to_string_exn x end
  | x :: r =>
      match match x with VUndef | VNull => Some "" | _ => to_string_exn x end,
            array_join sep r with
      | Some a, Some b => Some (a ++ sep ++ b)
      | _, _ => None
      end
  end.

(** [`${v || ''}`] *)
Definition or_blank (v : value) : option string :=
  if truthy v then to_string_exn v else Some "".

Definition succeeds {A} (o : option A) : bool :=
  match o with Some _ => true | None => false end.

(** ** Settings step after migration (lines 158-159 and 558-559)

    [applyTheme(state.settings.theme)] reads the theme (a TypeError when
    [state.settings] is [null] or [undefined]) and passes it to
    [setAttribute], which converts it to a string.
    [applyLanguage(state.settings.language)] then writes
    [state.settings.language = lang] back (line 222) and converts [lang] to
    a string for the select's value and the [translations[lang]] lookup.
    When that conversion throws, [lang] was read from an own key, so the
    write left the store as it was.  The rest of both functions only
    touches the DOM. *)
Definition apply_settings (state : value) : option value :=
  match get state "settings" with
  | None => None
  | Some settings =>
      match get settings "theme" with
      | None => None
      | Some theme =>
          if succeeds (to_string_exn theme) then
            let lang := get_or_undef settings "language" in
            if succeeds (to_string_exn lang)
            then Some (set state "settings" (set settings "language" lang))
            else None
          else None
      end
  end.

(** ** Whether [renderAll()] (lines 570-581) runs without a TypeError

    Only the reads of [state] and the conversions of what they read to
    strings can fail; the DOM calls themselves do not.  [renderAll] does
    not change [state]. *)
Definition nonnullish (v : value) : bool :=
  match v with VUndef | VNull => false | _ => true end.

(** [getDict()] (lines 103-105): [translations[state.settings.language]]
    converts the language to a property key; a missing entry falls back to
    English, and reading a text from the entry found does not fail. *)
Definition getDict_ok (state : value) : bool :=
  match get state "settings" with
  | None => false
  | Some settings =>
      match get settings "language" with
      | None => false
      | Some lang => succeeds (to_string_exn lang)
      end
  end.

(** [coll.length === 0] *)
Definition length_is_zero (coll : value) : bool :=
  match coll with
  | VArr [] _ => true
  | VStr s => String.eqb s ""
  | VObj fs => match assoc "length" fs with Some (VNum 0) => true | _ => false end
  | _ => false
  end.

(** [if (coll.length === 0) { ... getDict() ...; return; }
     coll.forEach(item => ...)] *)
Definition renders_list (dict_ok : bool) (item_ok : value -> bool) (coll : value) : bool :=
  nonnullish coll &&
  (if length_is_zero coll then dict_ok
   else match coll with
        | VArr l ps => negb (own "forEach" ps) && forallb item_ok l
        | _ => false
        end).

(** [`${client.name} - ${client.age || ''} - ${client.weight || ''}kg`]
    (line 341) *)
Definition client_renders (client : value) : bool :=
  nonnullish client &&
  succeeds (to_string_exn (get_or_undef client "name")) &&
  succeeds (or_blank (get_or_undef client "age")) &&
  succeeds (or_blank (get_or_undef client "weight")).

(** [`${program.name}: ${program.exercises.join(', ')}`] (line 373) *)
Definition program_renders (program : value) : bool :=
  nonnullish program &&
  succeeds (to_string_exn (get_or_undef program "name")) &&
  match get_or_undef program "exercises" with
  | VArr l ps => negb (own "join" ps) && succeeds (array_join ", " l)
  | _ => false
  end.

(** [`${exercise.name} (${exercise.muscle || ''})`] (line 397) *)
Definition exercise_renders (exercise : value) : bool :=
  nonnullish exercise &&
  succeeds (to_string_exn (get_or_undef exercise "name")) &&
  succeeds (or_blank (get_or_undef exercise "muscle")).

(** [updateClientSelect] (lines 314-328): [getDict().selectClient], then
    for each client [opt.value = client.id] (converted to a string) and
    [opt.textContent = client.name] ([null] and [undefined] clear it, any
    other value is converted). *)
Definition select_renders (state : value) : bool :=
  getDict_ok state &&
  match get_or_undef state "clients" with
  | VArr l ps =>
      negb (own "forEach" ps) &&
      forallb (fun c =>
                 nonnullish c && succeeds (to_string_exn (get_or_undef c "id")) &&
                 (let n := get_or_undef c "name" in
                  negb (nonnullish n) || succeeds (to_string_exn n))) l
  | _ => false
  end.

(** [arr.find(p)] with a predicate that may throw: [None] is the throw,
    [Some None] is [undefined] (nothing found). *)
Fixpoint find_exn (p : value -> option bool) (l : list value) : option (option value) :=
  match l with
  | [] => Some None
  | x :: r =>
      match p x with
      | None => None
      | Some true => Some (Some x)
      | Some false => find_exn p r
      end
  end.

(** One event of [renderEvents] (lines 453-454):
    [state.clients.find(client => client.id === event.clientId)?.name || '']
    and [`${event.date}: ${clientName} - ${event.note || ''}`]. *)
Definition event_renders (clients ev : value) : bool :=
  match clients with
  | VArr cl ps =>
      negb (own "find" ps) &&
      match find_exn (fun c =>
                        match get c "id" with
                        | None => None
                        | Some id => option_map (strict_eq id) (get ev "clientId")
                        end) cl with
      | None => false
      | Some found =>
          let name := match found with Some c => get_or_undef c "name" | None => VUndef end in
          nonnullish ev &&
          succeeds (to_string_exn (get_or_undef ev "date")) &&
          succeeds (or_blank name) &&
          succeeds (or_blank (get_or_undef ev "note"))
      end
  | _ => false
  end.

(** [theme-select.value = state.settings.theme] and the same for the
    language (lines 579-580). *)
Definition settings_selects_ok (state : value) : bool :=
  match get state "settings" with
  | None => false
  | Some settings =>
      match get settings "theme", get settings "language" with
      | Some theme, Some lang => succeeds (to_string_exn theme) && succeeds (to_string_exn lang)
      | _, _ => false
      end
  end.

Definition renderAll_ok (state : value) : bool :=
  let dict := getDict_ok state in
  let clients := get_or_undef state "clients" in
  renders_list dict client_renders clients                          (* renderClients *)
  && renders_list dict program_renders (get_or_undef state "programs") (* renderPrograms *)
  && renders_list dict exercise_renders (get_or_undef state "exercises") (* renderExercises *)
  && select_renders state        (* updateClientSelect, for both selects *)
  && dict   (* renderProgressRecords: the rebuilt select has '' selected *)
  && renders_list dict (event_renders clients) (get_or_undef state "events") (* renderEvents *)
  && settings_selects_ok state.

(** ** [loadState()] (lines 148-161)

    [localStorage.getItem('ftm-state')]: no item (or an empty string), a
    text [JSON.parse] rejects (caught, state kept), or a parsed document.
    The global [state] starts as [initial_state].  A throw after the
    try/catch is not caught: startup stops there. *)
Inductive stored_item := NoItem | StoredUnparseable | StoredDoc (doc : value).

Definition loadState (e : entropy) (k : nat) (item : stored_item)
  : value * nat * completion :=
  let st0 := match item with StoredDoc d => d | _ => initial_state end in
  let '(st1, k1, r) := migrateState e k st0 in
  match r with
  | Thrown => (st1, k1, Thrown)
  | Normal =>
      match apply_settings st1 with
      | None => (st1, k1, Thrown)
      | Some st2 => (st2, k1, Normal)
      end
  end.

(** ** Restore handler ([reader.onload], lines 553-565): [replaceState]

    [Thrown] is the completion in which the catch block shows
    ['Invalid backup file'].  [saveState()] (line 560) only writes
    [JSON.stringify(state)] to localStorage inside its own try/catch, so it
    neither changes [state] nor throws. *)
Definition restore (e : entropy) (k : nat) (input : parse_result) (state : value)
  : value * nat * completion :=
  match input with
  | ParseError => (state, k, Thrown)
  | Parsed data =>
      (* state = data; migrateState(); *)
      let '(st1, k1, r) := migrateState e k data in
      match r with
      | Thrown => (st1, k1, Thrown)
      | Normal =>
          match apply_settings st1 with
          | None => (st1, k1, Thrown)
          | Some st2 => (st2, k1, if renderAll_ok st2 then Normal else Thrown)
          end
      end
  end.

(** ** Client delete handler (lines 345-357): [deleteClient(client.id)]

    The render calls that follow only read [state]. *)
Fixpoint filter_exn {A} (f : A -> option bool) (l : list A) : option (list A) :=
  match l with
  | [] => Some []
  | x :: r =>
      match f x with
      | None => None
      | Some b =>
          match filter_exn f r with
          | None => None
          | Some r' => Some (if b then x :: r' else r')
          end
      end
  end.

(** [x => x[key] !== clientId] *)
Definition differs_at (key : string) (clientId x : value) : option bool :=
  match get x key with
  | None => None
  | Some v => Some (negb (strict_eq v clientId))
  end.

(** [coll.filter(x => x[key] !== clientId)]: only an array has [filter]. *)
Definition filter_collection (key : string) (clientId coll : value) : option value :=
  match coll with
  | VArr l _ =>
      match filter_exn (differs_at key clientId) l with
      | Some l' => Some (VArr l' [])
      | None => None
      end
  | _ => None
  end.

Definition deleteClient (state : value) (clientId : value) : value * completion :=
  match filter_collection "id" clientId (get_or_undef state "clients") with
  | None => (state, Thrown)
  | Some cl =>
      let st1 := set state "clients" cl in
      match filter_collection "clientId" clientId (get_or_undef st1 "progress") with
      | None => (st1, Thrown)
      | Some p =>
          let st2 := set st1 "progress" p in
          match filter_collection "clientId" clientId (get_or_undef st2 "events") with
          | None => (st2, Thrown)
          | Some ev => (set st2 "events" ev, Normal)
          end
      end
  end.

(** ** Progress and calendar form handlers (lines 510-537)

    The inputs are the form field values: the selected client option's
    value, the date, and the weight (resp. the trimmed note). *)
Definition push_record (state : value) (coll : string) (record : value)
  : value * completion :=
  match get_or_undef state coll with
  | VArr l ps => (set state coll (VArr (app l [record]) ps), Normal)
  | _ => (state, Thrown)
  end.

Definition addProgressRecord (state : value) (clientId date weight : string)
  : value * completion :=
  if String.eqb clientId "" then (state, Normal)
  else if String.eqb date "" then (state, Normal)
  else push_record state "progress"
         (VObj [("clientId", VStr clientId); ("date", VStr date); ("weight", VStr weight)]).

Definition addEvent (state : value) (clientId date note : string)
  : value * completion :=
  if String.eqb clientId "" then (state, Normal)
  else if String.eqb date "" then (state, Normal)
  else push_record state "events"
         (VObj [("clientId", VStr clientId); ("date", VStr date); ("note", VStr note)]).

(** ** A concrete environment: [crypto.randomUUID] available *)
Definition digit (n : nat) : string := String (ascii_of_nat (48 + Nat.modulo n 10)) "".

Definition demo_entropy : entropy := {|
  randomUUID_available := true;
  randomUUID := fun k =>
    "00000000-0000-4000-8000-0000000000" ++ digit (Nat.div k 10) ++ digit k;
  date_now := fun _ => 1700000000000%Z;
  random_below_10000 := fun k => Z.of_nat k
|}.

(** ** Sample documents *)

(** A pre-migration document: clients [A, B] without ids and legacy
    positional references. *)
Definition legacy_state : value :=
  VObj [("clients", VArr [VObj [("name", VStr "A")]; VObj [("name", VStr "B")]] []);
        ("programs", VArr [] []); ("exercises", VArr [] []);
        ("progress",
          VArr [VObj [("clientIndex", VNum 1); ("date", VStr "2024-01-01");
                      ("weight", VStr "70")];
                VObj [("clientIndex", VNum 5); ("date", VStr "2024-01-01")]] []);
        ("events", VArr [VObj [("clientIndex", VNum 0); ("date", VStr "2024-02-01")]] []);
        ("settings", default_settings)].

Definition client_ann : value :=
  VObj [("id", VStr "c-ann"); ("name", VStr "Ann"); ("age", VStr "30"); ("weight", VStr "60")].

Definition client_bob : value :=
  VObj [("id", VStr "c-bob"); ("name", VStr "Bob"); ("age", VStr ""); ("weight", VStr "")].

(** A store as the running app builds it. *)
Definition sample_store : value :=
  VObj [("clients", VArr [client_ann; client_bob] []);
        ("programs", VArr [VObj [("name", VStr "Full body");
                                 ("exercises", VArr [VStr "squat"; VStr "row"; VStr "press"] [])]] []);
        ("exercises", VArr [VObj [("name", VStr "squat"); ("muscle", VStr "legs")]] []);
        ("progress", VArr [VObj [("clientId", VStr "c-ann"); ("date", VStr "2024-01-01");
                                 ("weight", VStr "60")];
                           VObj [("clientId", VStr "c-bob"); ("date", VStr "2024-01-02");
                                 ("weight", VStr "80")]] []);
        ("events", VArr [VObj [("clientId", VStr "c-ann"); ("date", VStr "2024-01-03");
                               ("note", VStr "legs")]] []);
        ("settings", VObj [("theme", VStr "dark"); ("language", VStr "fa")])].

(** The shape of every record the records pass outputs. *)
Definition stripped (r : value) : Prop :=
  exists fs, r = VObj fs /\ assoc "clientIndex" fs = None.

(** A migrated-looking record that still carries a legacy index. *)
Definition linked_legacy_doc : value :=
  VObj [("clients", VArr [client_ann] []);
        ("progress", VArr [VObj [("clientId", VStr "c-ann"); ("clientIndex", VNum 0);
                                 ("date", VStr "2024-01-01")]] []);
        ("events", VArr [] []);
        ("settings", default_settings)].

(** A record with neither [clientId] nor [clientIndex]. *)
Definition orphan_doc : value :=
  VObj [("clients", VArr [client_ann] []);
        ("progress", VArr [VObj [("date", VStr "2024-01-01"); ("weight", VStr "70")]] []);
        ("events", VArr [] []);
        ("settings", default_settings)].

(** ** Invariant 2 of the spec, as a check on a store

    Every progress record and calendar event has a [clientId] that is
    [===] to some client's [id], and has no [clientIndex] field. *)
Definition client_ids (state : value) : list value :=
  match get_or_undef state "clients" with
  | VArr cs _ => map (fun c => get_or_undef c "id") cs
  | _ => []
  end.

Definition has_clientIndex (r : value) : bool :=
  match r with
  | VObj fs | VArr _ fs => match assoc "clientIndex" fs with Some _ => true | None => false end
  | _ => false
  end.

Definition record_linked (ids : list value) (r : value) : bool :=
  existsb (strict_eq (get_or_undef r "clientId")) ids && negb (has_clientIndex r).

Definition referential_integrity (state : value) : bool :=
  let ids := client_ids state in
  match get_or_undef state "progress", get_or_undef state "events" with
  | VArr ps _, VArr evs _ => forallb (record_linked ids) ps && forallb (record_linked ids) evs
  | _, _ => false
  end.

(** A stored or restored document in the shape of [state] without its
    [settings] key. *)
Definition nosettings_doc : value :=
  VObj [("clients", VArr [client_ann] []); ("programs", VArr [] []);
        ("exercises", VArr [] []); ("progress", VArr [] []);
        ("events", VArr [] [])].

(** A JSON document that is not in the shape of [state]: [exercises] is a
    string and the theme a number. *)
Definition malformed_doc : value :=
  VObj [("clients", VArr [] []); ("programs", VArr [] []);
        ("exercises", VStr ""); ("progress", VArr [] []);
        ("events", VArr [] []);
        ("settings", VObj [("theme", VNum 5); ("language", VStr "en")])].

(** ** A store in the post-migration shape (section 3 of the spec)

    Clients with a non-empty string [id] (pairwise distinct) and a string
    [name]; programs with a string [name] and an array of exercise names;
    exercises with a string [name]; progress records and calendar events
    with string [clientId] and [date], no [clientIndex], each naming a
    client; settings with a string [theme] and [language]; and nothing but
    JSON data, as a store read from [localStorage] or a backup file is. *)
Definition is_str (v : value) : bool :=
  match v with VStr _ => true | _ => false end.

Definition nonempty_str (v : value) : bool :=
  match v with VStr s => negb (String.eqb s "") | _ => false end.

Definition client_wfb (c : value) : bool :=
  match c with
  | VObj _ => nonempty_str (get_or_undef c "id") && is_str (get_or_undef c "name")
  | _ => false
  end.

Definition program_wfb (p : value) : bool :=
  match p with
  | VObj _ =>
      is_str (get_or_undef p "name") &&
      match get_or_undef p "exercises" with VArr l _ => forallb is_str l | _ => false end
  | _ => false
  end.

Definition exercise_wfb (x : value) : bool :=
  match x with VObj _ => is_str (get_or_undef x "name") | _ => false end.

Definition record_wfb (r : value) : bool :=
  match r with
  | VObj _ =>
      is_str (get_or_undef r "clientId") && is_str (get_or_undef r "date") &&
      negb (has_clientIndex r)
  | _ => false
  end.

Definition settings_wfb (s : value) : bool :=
  match s with
  | VObj _ => is_str (get_or_undef s "theme") && is_str (get_or_undef s "language")
  | _ => false
  end.

Fixpoint values_nodup (l : list value) : bool :=
  match l with
  | [] => true
  | x :: r => negb (existsb (value_eqb x) r) && values_nodup r
  end.

Definition store_wfb (st : value) : bool :=
  json_data st &&
  match st with
  | VObj _ =>
      match get_or_undef st "clients", get_or_undef st "programs",
            get_or_undef st "exercises", get_or_undef st "progress",
            get_or_undef st "events" with
      | VArr cs _, VArr ps _, VArr xs _, VArr recs _, VArr evs _ =>
          forallb client_wfb cs && values_nodup (client_ids st) &&
          forallb program_wfb ps && forallb exercise_wfb xs &&
          forallb record_wfb recs && forallb record_wfb evs &&
          referential_integrity st && settings_wfb (get_or_undef st "settings")
      | _, _, _, _, _ => false
      end
  | _ => false
  end.

(** The optional fields of the data model (section 3 of the spec) are
    strings when present: a client's [age] and [weight], an exercise's
    [muscle], a progress record's [weight] and an event's [note]. *)
Definition opt_str (v : value) : bool :=
  match v with VUndef | VStr _ => true | _ => false end.

Definition optional_fields_wfb (st : value) : bool :=
  match get_or_undef st "clients", get_or_undef st "exercises",
        get_or_undef st "progress", get_or_undef st "events" with
  | VArr cs _, VArr xs _, VArr recs _, VArr evs _ =>
      forallb (fun c => opt_str (get_or_undef c "age") && opt_str (get_or_undef c "weight")) cs &&
      forallb (fun x => opt_str (get_or_undef x "muscle")) xs &&
      forallb (fun r => opt_str (get_or_undef r "weight")) recs &&
      forallb (fun ev => opt_str (get_or_undef ev "note")) evs
  | _, _, _, _ => false
  end.

(** ** Strings read from the form fields

    A string is the sequence of its UTF-16 code units, here units below 256
    ([ascii]).  Among those, [String.prototype.trim] strips TAB, LF, VT, FF,
    CR, SPACE and NO-BREAK SPACE (160). *)
Definition is_js_space (c : ascii) : bool :=
  existsb (Nat.eqb (nat_of_ascii c)) [9; 10; 11; 12; 13; 32; 160].

Fixpoint drop_space (l : list ascii) : list ascii :=
  match l with
  | c :: r => if is_js_space c then drop_space r else l
  | [] => []
  end.

(** [s.trim()] *)
Definition trim (s : string) : string :=
  string_of_list_ascii (rev (drop_space (rev (drop_space (list_ascii_of_string s))))).

(** [s.split(sep)] for a one-character separator. *)
Fixpoint split_on (sep : ascii) (s : string) : list string :=
  match s with
  | EmptyString => [EmptyString]
  | String c r =>
      let parts := split_on sep r in
      if Ascii.eqb c sep then EmptyString :: parts
      else match parts with
           | p :: ps => String c p :: ps
           | [] => [String c EmptyString]
           end
  end.

(** [l.join(sep)] on an array of strings. *)
Fixpoint join (sep : string) (l : list string) : string :=
  match l with
  | [] => ""
  | [x] => x
  | x :: r => x ++ sep ++ join sep r
  end.

(** [text.split(',').map(s => s.trim()).filter(Boolean)] (line 488) *)
Definition parse_exercises (text : string) : list string :=
  filter (fun x => negb (String.eqb x "")) (map trim (split_on "," text)).

(** ** Client, program and exercise forms (lines 471-508)

    [state.clients.push({ id: generateId('client'), ... })] reads
    [state.clients] (a TypeError on [null]/[undefined]), evaluates the
    argument (one call of [generateId]) and calls [push], which only an
    array has. *)
Definition addClient (e : entropy) (k : nat) (state : value) (name age weight : string)
  : value * nat * completion :=
  let name := trim name in
  if String.eqb name "" then (state, k, Normal)
  else
    match get_or_undef state "clients" with
    | VArr l ps =>
        (set state "clients"
           (VArr (app l [VObj [("id", VStr (generateId e "client" k)); ("name", VStr name);
                               ("age", VStr age); ("weight", VStr weight)]]) ps),
         S k, Normal)
    | VUndef | VNull => (state, k, Thrown)
    | _ => (state, S k, Thrown)
    end.

Definition addProgram (state : value) (name exercises : string) : value * completion :=
  let name := trim name in
  let exercises := parse_exercises exercises in
  if String.eqb name "" then (state, Normal)
  else push_record state "programs"
         (VObj [("name", VStr name); ("exercises", VArr (map VStr exercises) [])]).

Definition addExercise (state : value) (name muscle : string) : value * completion :=
  let name := trim name in
  let muscle := trim muscle in
  if String.eqb name "" then (state, Normal)
  else push_record state "exercises" (VObj [("name", VStr name); ("muscle", VStr muscle)]).

(** ** Delete buttons of programs, exercises and events (lines 376-380,
    400-404, 457-461): [state.<coll>.splice(idx, 1)] with the position
    [idx] of the item in the list; [splice] on an index past the end
    removes nothing. *)
Definition splice_one (l : list value) (idx : nat) : list value :=
  app (firstn idx l) (skipn (S idx) l).

Definition deleteAt (state : value) (coll : string) (idx : nat) : value * completion :=
  match get_or_undef state coll with
  | VArr l ps => (set state coll (VArr (splice_one l idx) ps), Normal)
  | _ => (state, Thrown)
  end.

(** ** Progress table ([renderProgressRecords], lines 411-441)

    The records shown for the selected client ([Some []]: the "no records"
    text, read from [getDict()]); [None] is a TypeError.  Each row converts
    [rec.date] and [rec.weight || ''] to strings (line 437). *)
(** [`<td>${rec.date}</td><td>${rec.weight || ''}</td>`] *)
Definition progress_row_ok (r : value) : bool :=
  succeeds (to_string_exn (get_or_undef r "date")) &&
  succeeds (or_blank (get_or_undef r "weight")).

Definition progress_shown (state : value) (clientId : string) : option (list value) :=
  if String.eqb clientId "" then (if getDict_ok state then Some [] else None)
  else
    match get_or_undef state "progress" with
    | VArr l ps =>
        if own "filter" ps then None
        else
          match filter_exn (fun r => option_map (fun v => strict_eq v (VStr clientId))
                                                (get r "clientId")) l with
          | None => None
          | Some [] => if getDict_ok state then Some [] else None
          | Some records =>
              if forallb progress_row_ok records then Some records else None
          end
    | _ => None
    end.

(** ** Client select ([updateClientSelect], lines 314-328)

    The values of the options, the empty default first: [opt.value =
    client.id] stores the id converted to a string.  [None] is a TypeError
    anywhere in the function. *)
Definition client_select_values (state : value) : option (list string) :=
  if select_renders state then
    match get_or_undef state "clients" with
    | VArr cs _ =>
        option_map (cons "")
          (map_exn (fun c => match get c "id" with
                             | None => None
                             | Some id => to_string_exn id
                             end) cs)
    | _ => None
    end
  else None.

(** ** [saveState()] (lines 164-170): the text written to localStorage,
    as the next [loadState()] reads it back. *)
Definition saveState (state : value) : stored_item :=
  StoredDoc (json_roundtrip state).

(** [trim] on the code units. *)
Definition trim_list (l : list ascii) : list ascii := rev (drop_space (rev (drop_space l))).

(** No code unit of [s] is a comma. *)
Definition no_comma (s : string) : bool :=
  forallb (fun c => negb (Ascii.eqb c ",")) (list_ascii_of_string s).

End App.

(** * The second snapshot (lines 599-1107)

    Clients have no id there; records point to a client by its position
    [clientIndex]. *)
Module Legacy.
Import Js App.

(** Client delete button (lines 876-889):
    [state.clients.splice(idx, 1)], then
    [state.progress = state.progress.filter(p => p.clientIndex !== idx)]
    and the same for [state.events]. *)
Definition deleteClient (state : value) (idx : nat) : value * completion :=
  match get_or_undef state "clients" with
  | VArr cs ps =>
      let st1 := set state "clients" (VArr (splice_one cs idx) ps) in
      match filter_collection "clientIndex" (VNum (Z.of_nat idx)) (get_or_undef st1 "progress") with
      | None => (st1, Thrown)
      | Some p =>
          let st2 := set st1 "progress" p in
          match filter_collection "clientIndex" (VNum (Z.of_nat idx)) (get_or_undef st2 "events") with
          | None => (st2, Thrown)
          | Some ev => (set st2 "events" ev, Normal)
          end
      end
  | _ => (state, Thrown)
  end.

(** Three clients and their records, as the second snapshot stores them. *)
Definition legacy_store : value :=
  VObj [("clients", VArr [VObj [("name", VStr "Ann")]; VObj [("name", VStr "Bob")];
                          VObj [("name", VStr "Cy")]] []);
        ("programs", VArr [] []); ("exercises", VArr [] []);
        ("progress", VArr [VObj [("clientIndex", VNum 0); ("date", VStr "2024-01-01")];
                           VObj [("clientIndex", VNum 1); ("date", VStr "2024-01-02")];
                           VObj [("clientIndex", VNum 2); ("date", VStr "2024-01-03")]] []);
        ("events", VArr [] []);
        ("settings", VObj [("theme", VStr "light"); ("language", VStr "en")])].

End Legacy.

(** * Properties *)

Module Facts.
Import Js App.

(** ** Property lists *)

Lemma assoc_set_found k v fs : assoc k fs = Some v -> assoc_set k v fs = fs.
Proof.
  induction fs as [|[k' v'] r IH]; simpl; [discriminate|].
  destruct (String.eqb_spec k k') as [->|Hne].
  - now intros [= ->].
  - intros H. now rewrite (IH H).
Qed.

Lemma assoc_assoc_set_eq k v fs : assoc k (assoc_set k v fs) = Some v.
Proof.
  induction fs as [|[k' v'] r IH]; simpl.
  - now rewrite String.eqb_refl.
  - destruct (String.eqb_spec k k') as [->|Hne]; simpl.
    + now rewrite String.eqb_refl.
    + destruct (String.eqb_spec k k'); [contradiction|exact IH].
Qed.

Lemma assoc_assoc_set_neq k k' v fs :
  k <> k' -> assoc k' (assoc_set k v fs) = assoc k' fs.
Proof.
  intros Hne. induction fs as [|[k0 v0] r IH]; simpl.
  - destruct (String.eqb_spec k' k); [congruence|reflexivity].
  - destruct (String.eqb_spec k k0) as [->|Hne0]; simpl.
    + destruct (String.eqb_spec k' k0); [congruence|reflexivity].
    + now rewrite IH.
Qed.

Lemma assoc_set_twice k v w fs : assoc_set k w (assoc_set k v fs) = assoc_set k w fs.
Proof.
  induction fs as [|[k0 v0] r IH]; simpl.
  - now rewrite String.eqb_refl.
  - destruct (String.eqb_spec k k0) as [->|Hne]; simpl.
    + now rewrite String.eqb_refl.
    + destruct (String.eqb_spec k k0); [contradiction|now rewrite IH].
Qed.

Lemma remove_key_absent k fs : assoc k fs = None -> remove_key k fs = fs.
Proof.
  unfold remove_key. induction fs as [|[k0 v0] r IH]; simpl; [reflexivity|].
  destruct (String.eqb_spec k k0); [discriminate|].
  intros H. now rewrite (IH H).
Qed.

Lemma assoc_remove_key k fs : assoc k (remove_key k fs) = None.
Proof.
  unfold remove_key. induction fs as [|[k0 v0] r IH]; simpl; [reflexivity|].
  destruct (String.eqb_spec k k0) as [->|Hne]; simpl; [exact IH|].
  destruct (String.eqb_spec k k0); [contradiction|exact IH].
Qed.

Lemma has_get o k v : has o k v -> get o k = Some v.
Proof. destruct o; simpl; try contradiction; intros ->; reflexivity. Qed.

Lemma set_has o k v : has o k v -> set o k v = o.
Proof. destruct o; simpl; try contradiction; intros H; now rewrite assoc_set_found. Qed.

Lemma has_set_eq o k v : is_container o -> has (set o k v) k v.
Proof. destruct o; simpl; try contradiction; intros _; apply assoc_assoc_set_eq. Qed.

Lemma has_set_neq o k k' v w : k <> k' -> has o k' w -> has (set o k v) k' w.
Proof.
  destruct o; simpl; try contradiction; intros Hne H;
    rewrite assoc_assoc_set_neq; assumption.
Qed.

Lemma get_set_neq o k k' v : k <> k' -> get (set o k v) k' = get o k'.
Proof.
  intros Hne. destruct o; simpl; try reflexivity;
    rewrite assoc_assoc_set_neq by assumption; reflexivity.
Qed.

Lemma set_set o k v w : set (set o k v) k w = set o k w.
Proof. destruct o; simpl; try reflexivity; now rewrite assoc_set_twice. Qed.

Lemma is_container_set o k v : is_container o -> is_container (set o k v).
Proof. destruct o; simpl; tauto. Qed.

Lemma get_VArr_container o k l ps : get o k = Some (VArr l ps) -> is_container o.
Proof. destruct o; simpl; try discriminate; auto. Qed.

Lemma get_VArr_has o k l ps : get o k = Some (VArr l ps) -> has o k (VArr l ps).
Proof.
  destruct o; simpl; try discriminate;
    destruct assoc; intros H; inversion H; reflexivity.
Qed.

Lemma has_get_or_undef o k v : has o k v -> get_or_undef o k = v.
Proof. intros H. unfold get_or_undef. now rewrite (has_get _ _ _ H). Qed.

Lemma get_or_undef_set_neq o k k' v :
  k <> k' -> get_or_undef (set o k v) k' = get_or_undef o k'.
Proof. intros H. unfold get_or_undef. now rewrite get_set_neq. Qed.

(** ** Identifiers *)

Lemma append_nonempty_r s1 s2 : s2 <> "" -> s1 ++ s2 <> "".
Proof. destruct s1; simpl; [auto|discriminate]. Qed.

Lemma generateId_nonempty e p k : entropy_wf e -> generateId e p k <> "".
Proof.
  intros He. unfold generateId. destruct (randomUUID_available e).
  - intros H. specialize (He k). rewrite H in He. discriminate.
  - apply append_nonempty_r. discriminate.
Qed.

Lemma generateId_truthy e p k : entropy_wf e -> truthy (VStr (generateId e p k)) = true.
Proof.
  intros He. simpl. destruct (String.eqb_spec (generateId e p k) "") as [H|H].
  - exfalso. exact (generateId_nonempty e p k He H).
  - reflexivity.
Qed.

Lemma demo_entropy_wf : entropy_wf demo_entropy.
Proof. intros k. reflexivity. Qed.

(** ** Migration: clients pass *)

Lemma migrate_client_None e k k' c :
  migrate_client e k c = None -> migrate_client e k' c = None.
Proof.
  unfold migrate_client. destruct (get c "id"); [|reflexivity].
  destruct (truthy v); discriminate.
Qed.

Lemma migrate_client_again e k k' c c' k1 :
  entropy_wf e -> migrate_client e k c = Some (c', k1) ->
  exists k2, migrate_client e k' c' = Some (c', k2).
Proof.
  intros He. unfold migrate_client.
  destruct (get c "id") as [id|] eqn:Hid; [|discriminate].
  destruct (truthy id) eqn:Ht.
  - intros [= <- _]. rewrite Hid, Ht. eauto.
  - intros [= <- _].
    destruct c; simpl in Hid |- *; try discriminate.
    (* on primitives the write is ignored and the id stays falsy *)
    all: try (eexists; reflexivity).
    all: rewrite assoc_assoc_set_eq, generateId_truthy by exact He; eauto.
Qed.

Lemma migrate_clients_again e cs :
  entropy_wf e ->
  forall k cs' ids k1 r, migrate_clients e k cs = (cs', ids, k1, r) ->
  forall k', exists k2, migrate_clients e k' cs' = (cs', ids, k2, r).
Proof.
  intros He. induction cs as [|c rest IH]; simpl; intros k cs' ids k1 r H k'.
  - inversion H; subst. simpl. eauto.
  - destruct (migrate_client e k c) as [[c' kc]|] eqn:Hc.
    + destruct (migrate_clients e kc rest) as [[[rest' ids'] k2] r'] eqn:Hr.
      inversion H; subst. simpl.
      destruct (migrate_client_again e k k' c c' kc He Hc) as [k3 Hc'].
      rewrite Hc'.
      destruct (IH kc rest' ids' _ _ Hr k3) as [k4 Hr'].
      rewrite Hr'. eauto.
    + inversion H; subst. simpl.
      erewrite migrate_client_None by exact Hc. eauto.
Qed.

(** ** Migration: records passes *)

Lemma drop_clientIndex_stripped l l' :
  map_exn drop_clientIndex l = Some l' -> Forall stripped l'.
Proof.
  revert l'. induction l as [|x r IH]; simpl; intros l' H.
  - inversion H; constructor.
  - destruct (drop_clientIndex x) as [y|] eqn:Hx; [|discriminate].
    destruct (map_exn drop_clientIndex r) as [r'|]; [|discriminate].
    inversion H; subst. constructor; [|now apply IH].
    destruct x; inversion Hx; subst; eexists; split; try reflexivity;
      apply assoc_remove_key.
Qed.

Lemma resolve_stripped ids r : stripped r -> resolve_record ids r = Some r.
Proof.
  intros [fs [-> Hfs]]. unfold resolve_record, get_or_undef; simpl.
  rewrite Hfs. destruct (truthy _); reflexivity.
Qed.

Lemma drop_stripped r : stripped r -> drop_clientIndex r = Some r.
Proof.
  intros [fs [-> Hfs]]. simpl. now rewrite remove_key_absent.
Qed.

Lemma migrate_records_stripped ids l :
  Forall stripped l -> migrate_records ids l = Some l.
Proof.
  intros Hl. unfold migrate_records.
  assert (H1 : map_exn (resolve_record ids) l = Some l).
  { induction Hl as [|x r Hx Hr IH]; simpl; [reflexivity|].
    now rewrite resolve_stripped, IH. }
  rewrite H1.
  assert (H2 : filter truthy l = l).
  { clear H1. induction Hl as [|x r Hx Hr IH]; simpl; [reflexivity|].
    destruct Hx as [fs [-> _]]. simpl. f_equal. exact IH. }
  rewrite H2. clear H1 H2.
  induction Hl as [|x r Hx Hr IH]; simpl; [reflexivity|].
  rewrite drop_stripped by exact Hx. now rewrite IH.
Qed.

Lemma migrate_records_output ids l l' :
  migrate_records ids l = Some l' -> Forall stripped l'.
Proof.
  unfold migrate_records. destruct (map_exn _ l); [|discriminate].
  apply drop_clientIndex_stripped.
Qed.

Lemma migrate_collection_again ids ids' coll p :
  migrate_collection ids coll = Some p -> migrate_collection ids' p = Some p.
Proof.
  destruct coll; simpl; try discriminate.
  destruct (migrate_records ids elems) as [l'|] eqn:H; [|discriminate].
  intros [= <-]. simpl.
  now rewrite (migrate_records_stripped ids' l' (migrate_records_output _ _ _ H)).
Qed.

(** ** Claim C2 *)

(** C2: the Migration Engine is idempotent.  Whatever state [migrateState]
    starts from, running it again on its result (at any later point of the
    id generator) leaves that result unchanged and ends the same way
    (normally, or with the same TypeError). *)
Theorem migrateState_idempotent (e : entropy) (He : entropy_wf e)
  (k : nat) (state st1 : value) (k1 : nat) (r : completion) :
  migrateState e k state = (st1, k1, r) ->
  forall k', exists k2, migrateState e k' st1 = (st1, k2, r).
Proof.
  intros H k'. unfold migrateState in H |- *.
  destruct (get state "clients") as [[| | | | |cs ps|]|] eqn:Hcl;
    try (inversion H; subst; exists k'; rewrite Hcl; reflexivity).
  pose proof (get_VArr_container _ _ _ _ Hcl) as Hcont.
  destruct (migrate_clients e k cs) as [[[cs' ids] kc] rc] eqn:Hmc.
  destruct rc.
  - (* clients pass completed *)
    destruct (migrate_clients_again e cs He k cs' ids kc Normal Hmc k') as [k2 Hmc'].
    set (st1' := set state "clients" (VArr cs' [])) in H.
    assert (Hh1 : has st1' "clients" (VArr cs' [])) by now apply has_set_eq.
    destruct (migrate_collection ids (get_or_undef st1' "progress")) as [p|] eqn:Hp.
    + set (st2 := set st1' "progress" p) in H.
      assert (Hh2 : has st2 "progress" p) by (apply has_set_eq, is_container_set, Hcont).
      assert (Hh2c : has st2 "clients" (VArr cs' []))
        by (apply has_set_neq; [discriminate|exact Hh1]).
      destruct (migrate_collection ids (get_or_undef st2 "events")) as [ev|] eqn:Hev;
        inversion H; subst; clear H.
      * set (st3 := set st2 "events" ev).
        assert (Hh3 : has st3 "events" ev)
          by (apply has_set_eq, is_container_set, is_container_set, Hcont).
        assert (Hh3c : has st3 "clients" (VArr cs' []))
          by (apply has_set_neq; [discriminate|exact Hh2c]).
        assert (Hh3p : has st3 "progress" p)
          by (apply has_set_neq; [discriminate|exact Hh2]).
        rewrite (has_get _ _ _ Hh3c), Hmc', (set_has _ _ _ Hh3c).
        rewrite (has_get_or_undef _ _ _ Hh3p),
                (migrate_collection_again _ ids _ _ Hp), (set_has _ _ _ Hh3p).
        rewrite (has_get_or_undef _ _ _ Hh3),
                (migrate_collection_again _ ids _ _ Hev), (set_has _ _ _ Hh3).
        eauto.
      * (* events pass threw: the second run throws there again *)
        rewrite (has_get _ _ _ Hh2c), Hmc', (set_has _ _ _ Hh2c).
        rewrite (has_get_or_undef _ _ _ Hh2),
                (migrate_collection_again _ ids _ _ Hp), (set_has _ _ _ Hh2).
        rewrite Hev. eauto.
    + (* progress pass threw *)
      inversion H; subst; clear H.
      rewrite (has_get _ _ _ Hh1), Hmc', (set_has _ _ _ Hh1), Hp. eauto.
  - (* clients pass threw *)
    inversion H; subst; clear H.
    assert (Hh : has (set state "clients" (VArr cs' ps)) "clients" (VArr cs' ps))
      by now apply has_set_eq.
    rewrite (has_get _ _ _ Hh).
    destruct (migrate_clients_again e cs He k cs' ids k1 Thrown Hmc k') as [k2 Hmc'].
    rewrite Hmc', set_set. eauto.
Qed.

Lemma migrateState_idempotent_witness :
  let '(st1, k1, r) := migrateState demo_entropy 0 legacy_state in
  exists k2, migrateState demo_entropy 7 st1 = (st1, k2, r).
Proof.
  exact (migrateState_idempotent demo_entropy demo_entropy_wf 0 legacy_state _ _ _
           eq_refl 7).
Defined.

(** ** Client deletion *)

Lemma value_eqb_refl : forall v, value_eqb v v = true.
Proof.
  fix IH 1. intros [| | b | n | s | l ps | fs]; simpl.
  - reflexivity.
  - reflexivity.
  - apply Bool.eqb_reflx.
  - apply Z.eqb_refl.
  - apply String.eqb_refl.
  - apply andb_true_intro; split.
    + revert l. fix IHl 1. intros [|x r]; [reflexivity|].
      simpl. rewrite IH. apply IHl.
    + revert ps. fix IHp 1. intros [|[k x] r]; [reflexivity|].
      simpl. rewrite String.eqb_refl, IH. apply IHp.
  - revert fs. fix IHf 1. intros [|[k x] r]; [reflexivity|].
    simpl. rewrite String.eqb_refl, IH. apply IHf.
Qed.

Lemma filter_exn_In {A} (f : A -> option bool) l l' x :
  filter_exn f l = Some l' -> In x l' -> In x l /\ f x = Some true.
Proof.
  revert l'. induction l as [|y r IH]; simpl; intros l' H Hx.
  - inversion H; subst. contradiction.
  - destruct (f y) as [b|] eqn:Hy; [|discriminate].
    destruct (filter_exn f r) as [r'|] eqn:Hr; [|discriminate].
    inversion H; subst. destruct b.
    + destruct Hx as [<-|Hx]; [tauto|]. destruct (IH r' eq_refl Hx). tauto.
    + destruct (IH r' eq_refl Hx). tauto.
Qed.

Lemma filter_collection_shape key cid coll coll' :
  filter_collection key cid coll = Some coll' ->
  exists l', coll' = VArr l' [] /\
    forall x, In x l' -> exists v, get x key = Some v /\ strict_eq v cid = false.
Proof.
  destruct coll; simpl; try discriminate.
  destruct (filter_exn (differs_at key cid) elems) as [l'|] eqn:Hf; [|discriminate].
  intros [= <-]. exists l'. split; [reflexivity|].
  intros x Hx. destruct (filter_exn_In _ _ _ _ Hf Hx) as [_ Hd].
  unfold differs_at in Hd. destruct (get x key) as [v|]; [|discriminate].
  exists v. split; [reflexivity|]. inversion Hd. now apply negb_true_iff.
Qed.

(** C10: the delete handler writes only [state.clients], [state.progress]
    and [state.events]: every other property of the store, in particular
    [programs], [exercises] and [settings], reads the same afterwards,
    however the handler ends. *)
Theorem deleteClient_frame (state clientId : value) (key : string) :
  ~ In key ["clients"; "progress"; "events"] ->
  get (fst (deleteClient state clientId)) key = get state key.
Proof.
  intros Hk. assert (H1 : "clients" <> key) by (intros <-; apply Hk; simpl; tauto).
  assert (H2 : "progress" <> key) by (intros <-; apply Hk; simpl; tauto).
  assert (H3 : "events" <> key) by (intros <-; apply Hk; simpl; tauto).
  unfold deleteClient.
  destruct (filter_collection "id" clientId _) as [cl|]; [|reflexivity].
  destruct (filter_collection "clientId" clientId _) as [p|]; simpl;
    [|now rewrite get_set_neq].
  destruct (filter_collection "clientId" clientId _) as [ev|]; simpl;
    rewrite ?get_set_neq by assumption; reflexivity.
Qed.

Lemma deleteClient_frame_witness :
  get (fst (deleteClient sample_store (VStr "c-ann"))) "programs"
  = get sample_store "programs".
Proof. apply deleteClient_frame. simpl. intuition discriminate. Defined.

(** C3: cascade delete.  For a client [C] of the store, once the delete
    handler run with [C.id] returns, [C] is no longer in [state.clients] and
    no record left in [state.progress] or [state.events] has a [clientId]
    equal ([===]) to [C.id]. *)
Theorem deleteClient_cascade (state C : value) (cs : list value) (ps0 : fields) (st' : value) :
  get state "clients" = Some (VArr cs ps0) -> In C cs ->
  deleteClient state (get_or_undef C "id") = (st', Normal) ->
  exists cs' recs evs,
    get st' "clients" = Some (VArr cs' []) /\ ~ In C cs' /\
    get st' "progress" = Some (VArr recs []) /\
    get st' "events" = Some (VArr evs []) /\
    forall r, In r (recs ++ evs) ->
      strict_eq (get_or_undef r "clientId") (get_or_undef C "id") = false.
Proof.
  intros Hcl HC. set (cid := get_or_undef C "id").
  pose proof (get_VArr_container _ _ _ _ Hcl) as Hcont.
  unfold deleteClient. unfold get_or_undef at 1. rewrite Hcl.
  destruct (filter_collection "id" cid (VArr cs ps0)) as [cl|] eqn:Hf1; [|discriminate].
  destruct (filter_collection "clientId" cid
             (get_or_undef (set state "clients" cl) "progress")) as [p|] eqn:Hf2;
    [|discriminate].
  destruct (filter_collection "clientId" cid
             (get_or_undef (set (set state "clients" cl) "progress" p) "events"))
    as [ev|] eqn:Hf3; [|discriminate].
  intros Heq. inversion Heq; subst st'; clear Heq.
  destruct (filter_collection_shape _ _ _ _ Hf1) as [cs' [-> Hcs']].
  destruct (filter_collection_shape _ _ _ _ Hf2) as [recs [-> Hrecs]].
  destruct (filter_collection_shape _ _ _ _ Hf3) as [evs [-> Hevs]].
  exists cs', recs, evs.
  assert (Hc1 := is_container_set state "clients" (VArr cs' []) Hcont).
  assert (Hc2 := is_container_set _ "progress" (VArr recs []) Hc1).
  repeat split.
  - rewrite !get_set_neq by discriminate. apply has_get, has_set_eq, Hcont.
  - intros HIn. destruct (Hcs' C HIn) as [v [Hv Heq]].
    unfold cid, get_or_undef in Heq. rewrite Hv, value_eqb_refl in Heq. discriminate.
  - rewrite get_set_neq by discriminate. apply has_get, has_set_eq, Hc1.
  - apply has_get, has_set_eq, Hc2.
  - intros r Hr. apply in_app_or in Hr. destruct Hr as [Hr|Hr];
      [destruct (Hrecs r Hr) as [v [Hv Heq]]|destruct (Hevs r Hr) as [v [Hv Heq]]];
      unfold get_or_undef; rewrite Hv; exact Heq.
Qed.

Lemma deleteClient_cascade_witness :
  exists st', deleteClient sample_store (get_or_undef client_ann "id") = (st', Normal) /\
  exists cs' recs evs,
    get st' "clients" = Some (VArr cs' []) /\ ~ In client_ann cs' /\
    get st' "progress" = Some (VArr recs []) /\
    get st' "events" = Some (VArr evs []) /\
    forall r, In r (recs ++ evs) ->
      strict_eq (get_or_undef r "clientId") (get_or_undef client_ann "id") = false.
Proof.
  eexists. split; [reflexivity|].
  apply (deleteClient_cascade sample_store client_ann [client_ann; client_bob] []).
  - reflexivity.
  - simpl. tauto.
  - reflexivity.
Defined.

(** ** Migration, record by record *)

Lemma map_exn_app {A B} (f : A -> option B) a b :
  map_exn f (a ++ b) =
  match map_exn f a, map_exn f b with
  | Some x, Some y => Some (app x y)
  | _, _ => None
  end.
Proof.
  induction a as [|u r IH]; simpl.
  - destruct (map_exn f b); reflexivity.
  - destruct (f u); [|reflexivity]. rewrite IH.
    destruct (map_exn f r), (map_exn f b); reflexivity.
Qed.

Lemma migrate_records_app ids a b :
  migrate_records ids (a ++ b) =
  match migrate_records ids a, migrate_records ids b with
  | Some x, Some y => Some (app x y)
  | _, _ => None
  end.
Proof.
  unfold migrate_records. rewrite map_exn_app.
  destruct (map_exn (resolve_record ids) a) as [x|];
    destruct (map_exn (resolve_record ids) b) as [y|]; try reflexivity.
  - rewrite filter_app, map_exn_app. reflexivity.
  - destruct (map_exn drop_clientIndex (filter truthy x)); reflexivity.
Qed.

Lemma migrate_records_one ids r :
  migrate_records ids [r] =
  match resolve_record ids r with
  | None => None
  | Some y => if truthy y then
               match drop_clientIndex y with Some z => Some [z] | None => None end
             else Some []
  end.
Proof.
  unfold migrate_records. simpl.
  destruct (resolve_record ids r) as [y|]; [|reflexivity].
  simpl. destruct (truthy y); simpl; [|reflexivity].
  destruct (drop_clientIndex y); reflexivity.
Qed.

Lemma map_exn_In {A B} (f : A -> option B) l l' x :
  map_exn f l = Some l' -> In x l -> exists y, f x = Some y /\ In y l'.
Proof.
  revert l'. induction l as [|u r IH]; simpl; intros l' H Hx; [contradiction|].
  destruct (f u) as [v|] eqn:Hu; [|discriminate].
  destruct (map_exn f r) as [r'|] eqn:Hr; [|discriminate].
  inversion H; subst. destruct Hx as [<-|Hx].
  - exists v. simpl. tauto.
  - destruct (IH r' eq_refl Hx) as [y [Hy Hin]]. exists y. simpl. tauto.
Qed.

(** [migrateState] ended normally: what each pass produced. *)
Lemma migrateState_Normal e k state st' k' :
  migrateState e k state = (st', k', Normal) ->
  exists cs ps cs' ids p ev,
    get state "clients" = Some (VArr cs ps) /\
    migrate_clients e k cs = (cs', ids, k', Normal) /\
    migrate_collection ids (get_or_undef state "progress") = Some p /\
    migrate_collection ids (get_or_undef state "events") = Some ev /\
    st' = set (set (set state "clients" (VArr cs' [])) "progress" p) "events" ev.
Proof.
  unfold migrateState.
  destruct (get state "clients") as [[| | | | |cs ps|]|] eqn:Hcl; try discriminate.
  destruct (migrate_clients e k cs) as [[[cs' ids] kc] []] eqn:Hmc; [|discriminate].
  rewrite get_or_undef_set_neq by discriminate.
  destruct (migrate_collection ids (get_or_undef state "progress")) as [p|] eqn:Hp;
    [|discriminate].
  rewrite !get_or_undef_set_neq by discriminate.
  destruct (migrate_collection ids (get_or_undef state "events")) as [ev|] eqn:Hev;
    [|discriminate].
  intros H. inversion H; subst. exists cs, ps, cs', ids, p, ev. tauto.
Qed.

Lemma migrateState_Normal_reads state st' cs' p ev :
  is_container state ->
  st' = set (set (set state "clients" (VArr cs' [])) "progress" p) "events" ev ->
  get st' "clients" = Some (VArr cs' []) /\ get st' "progress" = Some p /\
  get st' "events" = Some ev.
Proof.
  intros Hc ->. repeat split.
  - rewrite !get_set_neq by discriminate. apply has_get, has_set_eq, Hc.
  - rewrite get_set_neq by discriminate. apply has_get, has_set_eq, is_container_set, Hc.
  - apply has_get, has_set_eq, is_container_set, is_container_set, Hc.
Qed.

Lemma assoc_remove_key_neq k k' fs :
  k <> k' -> assoc k' (remove_key k fs) = assoc k' fs.
Proof.
  intros Hne. unfold remove_key.
  induction fs as [|[k0 v0] r IH]; simpl; [reflexivity|].
  destruct (String.eqb_spec k k0) as [->|Hne0]; simpl.
  - destruct (String.eqb_spec k' k0); [congruence|exact IH].
  - destruct (String.eqb_spec k' k0); [reflexivity|exact IH].
Qed.

(** ** Claim C6 *)

(** C6: a record with a falsy [clientId] and a numeric [clientIndex] that
    the [indexToId] map does not hold is dropped: the records pass gives
    exactly what it gives on the collection without that record. *)
Theorem migrate_records_drops_dangling (ids l1 l2 : list value) (r cid : value) (n : Z) :
  get r "clientId" = Some cid -> truthy cid = false ->
  get_or_undef r "clientIndex" = VNum n -> index_lookup ids n = None ->
  migrate_records ids (l1 ++ r :: l2) = migrate_records ids (l1 ++ l2).
Proof.
  intros Hc Ht Hi Hn.
  assert (Hr : migrate_records ids [r] = Some []).
  { rewrite migrate_records_one. unfold resolve_record.
    rewrite Hc, Ht, Hi. simpl. rewrite Hn. reflexivity. }
  change (l1 ++ r :: l2)%list with (l1 ++ [r] ++ l2)%list.
  rewrite !migrate_records_app, Hr.
  destruct (migrate_records ids l1), (migrate_records ids l2); reflexivity.
Qed.

Lemma migrate_records_drops_dangling_witness :
  migrate_records [VStr "c-ann"; VStr "c-bob"]
    ([] ++ VObj [("clientIndex", VNum 5); ("date", VStr "2024-01-01")] :: [])
  = migrate_records [VStr "c-ann"; VStr "c-bob"] ([] ++ []).
Proof.
  apply (migrate_records_drops_dangling _ _ _ _ VUndef 5); reflexivity.
Defined.

(** ** Claim C7 *)

(** C7, as claimed, fails: a record carrying both a [clientId] and a
    [clientIndex] loses its [clientIndex] in migration. *)
Lemma migrate_keeps_linked_counterexample :
  get (fst (fst (migrateState demo_entropy 0 linked_legacy_doc))) "progress"
  <> get linked_legacy_doc "progress".
Proof. vm_compute. discriminate. Qed.

(** C7, amended: a record whose [clientId] is truthy stays in place with all
    its fields in order, except that a [clientIndex] field is removed; when
    it has no [clientIndex] it passes through unchanged. *)
Theorem migrate_records_keeps_linked (ids l1 l2 : list value) (fs : fields) :
  truthy (get_or_undef (VObj fs) "clientId") = true ->
  migrate_records ids (l1 ++ VObj fs :: l2) =
    match migrate_records ids l1, migrate_records ids l2 with
    | Some a, Some b => Some (app a (VObj (remove_key "clientIndex" fs) :: b))
    | _, _ => None
    end
  /\ (assoc "clientIndex" fs = None -> migrate_records ids [VObj fs] = Some [VObj fs]).
Proof.
  intros Ht.
  assert (Hr : migrate_records ids [VObj fs] = Some [VObj (remove_key "clientIndex" fs)]).
  { rewrite migrate_records_one. unfold resolve_record.
    unfold get_or_undef in Ht. simpl in Ht |- *. rewrite Ht. reflexivity. }
  split.
  - change (l1 ++ VObj fs :: l2)%list with (l1 ++ [VObj fs] ++ l2)%list.
    rewrite !migrate_records_app, Hr.
    destruct (migrate_records ids l1), (migrate_records ids l2); reflexivity.
  - intros Hnone. rewrite Hr, remove_key_absent by exact Hnone. reflexivity.
Qed.

Lemma migrate_records_keeps_linked_witness :
  migrate_records [] ([] ++ VObj [("clientId", VStr "c-ann"); ("date", VStr "d")] :: [])
  = match migrate_records [] [], migrate_records [] [] with
    | Some a, Some b =>
        Some (app a (VObj (remove_key "clientIndex"
                             [("clientId", VStr "c-ann"); ("date", VStr "d")]) :: b))
    | _, _ => None
    end
  /\ (assoc "clientIndex" [("clientId", VStr "c-ann"); ("date", VStr "d")] = None ->
      migrate_records [] [VObj [("clientId", VStr "c-ann"); ("date", VStr "d")]]
      = Some [VObj [("clientId", VStr "c-ann"); ("date", VStr "d")]]).
Proof. apply migrate_records_keeps_linked. reflexivity. Defined.

(** ** Claim C5 *)

Lemma migrate_client_mono e k c c' k1 : migrate_client e k c = Some (c', k1) -> k <= k1.
Proof.
  unfold migrate_client. destruct (get c "id"); [|discriminate].
  destruct (truthy v); intros H; inversion H; lia.
Qed.

Lemma migrate_clients_mono e cs :
  forall k cs' ids k1 r, migrate_clients e k cs = (cs', ids, k1, r) -> k <= k1.
Proof.
  induction cs as [|c rest IH]; simpl; intros k cs' ids k1 r H.
  - inversion H; lia.
  - destruct (migrate_client e k c) as [[c' kc]|] eqn:Hc; [|inversion H; lia].
    destruct (migrate_clients e kc rest) as [[[rest' ids'] k2] r'] eqn:Hr.
    inversion H; subst.
    pose proof (migrate_client_mono _ _ _ _ _ Hc). pose proof (IH _ _ _ _ _ Hr). lia.
Qed.

Lemma migrate_clients_nth e cs :
  forall k cs' ids k1 i c,
  migrate_clients e k cs = (cs', ids, k1, Normal) -> nth_error cs i = Some c ->
  exists k0 c' k0', k <= k0 /\ k0' <= k1 /\ migrate_client e k0 c = Some (c', k0') /\
    nth_error cs' i = Some c' /\ nth_error ids i = Some (get_or_undef c' "id").
Proof.
  induction cs as [|c0 rest IH]; simpl; intros k cs' ids k1 i c H Hi.
  - destruct i; discriminate.
  - destruct (migrate_client e k c0) as [[c0' kc]|] eqn:Hc; [|discriminate].
    destruct (migrate_clients e kc rest) as [[[rest' ids'] k2] r'] eqn:Hr.
    inversion H; subst.
    destruct i as [|i]; simpl in Hi |- *.
    + inversion Hi; subst. exists k, c0', kc.
      pose proof (migrate_clients_mono _ _ _ _ _ _ _ Hr). repeat split; auto.
    + destruct (IH _ _ _ _ _ _ Hr Hi) as [k0 [c' [k0' [H1 [H2 [H3 [H4 H5]]]]]]].
      pose proof (migrate_client_mono _ _ _ _ _ Hc).
      exists k0, c', k0'. repeat split; auto; lia.
Qed.

Lemma container_get c k : is_container c -> get c k = Some (get_or_undef c k).
Proof. destruct c; simpl; tauto. Qed.

Lemma migrate_collection_In ids recs rps r y coll' :
  migrate_collection ids (VArr recs rps) = Some coll' -> In r recs ->
  resolve_record ids r = Some (VObj y) ->
  exists recs', coll' = VArr recs' [] /\ In (VObj (remove_key "clientIndex" y)) recs'.
Proof.
  simpl. unfold migrate_records.
  destruct (map_exn (resolve_record ids) recs) as [l1|] eqn:H1; [|discriminate].
  destruct (map_exn drop_clientIndex (filter truthy l1)) as [l2|] eqn:H2; [|discriminate].
  intros [= <-] Hin Hres. exists l2. split; [reflexivity|].
  destruct (map_exn_In _ _ _ _ H1 Hin) as [y' [Hy' Hin']].
  rewrite Hres in Hy'. inversion Hy'; subst.
  assert (Hf : In (VObj y) (filter truthy l1)) by (apply filter_In; auto).
  destruct (map_exn_In _ _ _ _ H2 Hf) as [z [Hz Hinz]].
  simpl in Hz. inversion Hz; subst. exact Hinz.
Qed.

(** C5: legacy reference resolution.  Let client [i] of the loaded
    sequence be an object without a (truthy) id, and let a record of
    [state.progress] or [state.events] have a falsy [clientId] and
    [clientIndex === i].  When migration returns, client [i] carries an id
    [s] drawn from [generateId] during this migration, and the collection
    holds the record with [clientId] set to [s] and no [clientIndex]. *)
Theorem migrateState_resolves_legacy (e : entropy) (He : entropy_wf e) (k : nat)
  (state : value) (cs : list value) (ps : fields) (i : nat) (c : value)
  (coll : string) (recs : list value) (rps : fields) (r cid st' : value) (k' : nat) :
  coll = "progress" \/ coll = "events" ->
  get state "clients" = Some (VArr cs ps) ->
  nth_error cs i = Some c -> is_container c -> truthy (get_or_undef c "id") = false ->
  get state coll = Some (VArr recs rps) -> In r recs ->
  get r "clientId" = Some cid -> truthy cid = false ->
  get_or_undef r "clientIndex" = VNum (Z.of_nat i) ->
  migrateState e k state = (st', k', Normal) ->
  exists k0 cs' recs',
    k <= k0 < k' /\
    let s := generateId e "client" k0 in
    let r' := VObj (remove_key "clientIndex" (assoc_set "clientId" (VStr s) (spread r))) in
    get st' "clients" = Some (VArr cs' []) /\ nth_error cs' i = Some (set c "id" (VStr s)) /\
    get st' coll = Some (VArr recs' []) /\ In r' recs' /\
    get r' "clientId" = Some (VStr s) /\ get r' "clientIndex" = Some VUndef.
Proof.
  intros Hcoll Hcl Hi Hcont Hid Hrecs Hin Hcid Htc Hidx Hm.
  destruct (migrateState_Normal _ _ _ _ _ Hm)
    as [cs0 [ps0 [cs' [ids [p [ev [Hcl' [Hmc [Hp [Hev Hst]]]]]]]]]].
  rewrite Hcl in Hcl'. inversion Hcl'; subst cs0 ps0; clear Hcl'.
  pose proof (get_VArr_container _ _ _ _ Hcl) as Hscont.
  destruct (migrateState_Normal_reads _ _ _ _ _ Hscont Hst) as [Rc [Rp Re]].
  destruct (migrate_clients_nth _ _ _ _ _ _ _ _ Hmc Hi)
    as [k0 [c' [k0' [Hk0 [Hk0' [Hmc1 [Hnth Hids]]]]]]].
  unfold migrate_client in Hmc1. rewrite (container_get _ _ Hcont), Hid in Hmc1.
  inversion Hmc1; subst c' k0'; clear Hmc1.
  set (s := generateId e "client" k0) in *.
  assert (Hsid : get_or_undef (set c "id" (VStr s)) "id" = VStr s)
    by (apply has_get_or_undef, has_set_eq, Hcont).
  rewrite Hsid in Hids.
  assert (Hres : resolve_record ids r = Some (VObj (assoc_set "clientId" (VStr s) (spread r)))).
  { unfold resolve_record. rewrite Hcid, Htc, Hidx. simpl.
    unfold index_lookup. rewrite Nat2Z.id.
    replace (0 <=? Z.of_nat i)%Z with true by (symmetry; apply Z.leb_le; lia).
    rewrite Hids. unfold s. rewrite generateId_truthy by exact He. reflexivity. }
  assert (Hcollv : get_or_undef state coll = VArr recs rps)
    by (unfold get_or_undef; now rewrite Hrecs).
  assert (Hmcoll : migrate_collection ids (VArr recs rps) =
                   Some (if String.eqb coll "progress" then p else ev)).
  { destruct Hcoll as [->| ->]; simpl String.eqb; cbv iota; rewrite <- Hcollv; assumption. }
  destruct (migrate_collection_In _ _ _ _ _ _ Hmcoll Hin Hres) as [recs' [Hc' Hin']].
  exists k0, cs', recs'. split; [lia|]. cbv zeta.
  repeat split.
  - exact Rc.
  - exact Hnth.
  - rewrite <- Hc'. destruct Hcoll as [->| ->]; simpl String.eqb; cbv iota; assumption.
  - exact Hin'.
  - simpl. rewrite assoc_remove_key_neq by discriminate.
    rewrite assoc_assoc_set_eq. reflexivity.
  - simpl. rewrite assoc_remove_key. reflexivity.
Qed.

Lemma migrateState_resolves_legacy_witness :
  exists k0 cs' recs',
    0 <= k0 < 2 /\
    let s := generateId demo_entropy "client" k0 in
    let r' := VObj (remove_key "clientIndex" (assoc_set "clientId" (VStr s)
                 (spread (VObj [("clientIndex", VNum 1); ("date", VStr "2024-01-01");
                                ("weight", VStr "70")])))) in
    get (fst (fst (migrateState demo_entropy 0 legacy_state))) "clients"
      = Some (VArr cs' []) /\
    nth_error cs' 1 = Some (set (VObj [("name", VStr "B")]) "id" (VStr s)) /\
    get (fst (fst (migrateState demo_entropy 0 legacy_state))) "progress"
      = Some (VArr recs' []) /\ In r' recs' /\
    get r' "clientId" = Some (VStr s) /\ get r' "clientIndex" = Some VUndef.
Proof.
  apply (migrateState_resolves_legacy demo_entropy demo_entropy_wf 0 legacy_state
           [VObj [("name", VStr "A")]; VObj [("name", VStr "B")]] [] 1
           (VObj [("name", VStr "B")]) "progress"
           [VObj [("clientIndex", VNum 1); ("date", VStr "2024-01-01"); ("weight", VStr "70")];
            VObj [("clientIndex", VNum 5); ("date", VStr "2024-01-01")]] []
           (VObj [("clientIndex", VNum 1); ("date", VStr "2024-01-01"); ("weight", VStr "70")])
           VUndef).
  - left. reflexivity.
  - reflexivity.
  - reflexivity.
  - simpl. exact I.
  - reflexivity.
  - reflexivity.
  - simpl. left. reflexivity.
  - reflexivity.
  - reflexivity.
  - reflexivity.
  - vm_compute. reflexivity.
Defined.

(** ** Claim C4 *)

Lemma migrate_clients_ids e cs :
  forall k cs' ids k1,
  migrate_clients e k cs = (cs', ids, k1, Normal) ->
  ids = map (fun c => get_or_undef c "id") cs'.
Proof.
  induction cs as [|c rest IH]; simpl; intros k cs' ids k1 H.
  - inversion H; reflexivity.
  - destruct (migrate_client e k c) as [[c' kc]|]; [|discriminate].
    destruct (migrate_clients e kc rest) as [[[rest' ids'] k2] r'] eqn:Hr.
    inversion H; subst. simpl. f_equal. eapply IH; eauto.
Qed.

Lemma migrate_records_origin ids recs recs' r' :
  migrate_records ids recs = Some recs' -> In r' recs' ->
  exists r y, In r recs /\ resolve_record ids r = Some y /\ truthy y = true /\
    r' = VObj (remove_key "clientIndex" (spread y)).
Proof.
  unfold migrate_records.
  destruct (map_exn (resolve_record ids) recs) as [l1|] eqn:H1; [|discriminate].
  intros H2 Hin.
  assert (Hb : forall l l', map_exn drop_clientIndex l = Some l' -> In r' l' ->
            exists y, In y l /\ drop_clientIndex y = Some r').
  { induction l as [|u w IH]; simpl; intros l' H Hx.
    - inversion H; subst; contradiction.
    - destruct (drop_clientIndex u) as [v|] eqn:Hu; [|discriminate].
      destruct (map_exn drop_clientIndex w) as [w'|]; [|discriminate].
      inversion H; subst. destruct Hx as [<-|Hx].
      + exists u. simpl. auto.
      + destruct (IH w' eq_refl Hx) as [y [Hy Hd]]. exists y. simpl. auto. }
  destruct (Hb _ _ H2 Hin) as [y [Hy Hd]].
  apply filter_In in Hy. destruct Hy as [Hy Ht].
  assert (Ha : forall l l', map_exn (resolve_record ids) l = Some l' -> In y l' ->
            exists r, In r l /\ resolve_record ids r = Some y).
  { induction l as [|u w IH]; simpl; intros l' H Hx.
    - inversion H; subst; contradiction.
    - destruct (resolve_record ids u) as [v|] eqn:Hu; [|discriminate].
      destruct (map_exn (resolve_record ids) w) as [w'|]; [|discriminate].
      inversion H; subst. destruct Hx as [<-|Hx].
      + exists u. simpl. auto.
      + destruct (IH w' eq_refl Hx) as [r [Hr Hres]]. exists r. simpl. auto. }
  destruct (Ha _ _ H1 Hy) as [r [Hr Hres]].
  exists r, y. repeat split; auto.
  destruct y; simpl in Hd; try discriminate; inversion Hd; reflexivity.
Qed.

Lemma nth_error_map_In {A B} (f : A -> B) l n b :
  nth_error (map f l) n = Some b -> exists a, In a l /\ b = f a.
Proof.
  intros H. rewrite nth_error_map in H.
  destruct (nth_error l n) as [a|] eqn:Ha; [|discriminate].
  inversion H; subst. exists a. split; [eapply nth_error_In; eauto|reflexivity].
Qed.

Lemma forallb_app_one {A} (f : A -> bool) l x :
  forallb f (app l [x]) = forallb f l && f x.
Proof. rewrite forallb_app. simpl. now rewrite andb_true_r. Qed.

Lemma client_ids_set_neq state k v :
  k <> "clients" -> client_ids (set state k v) = client_ids state.
Proof. intros H. unfold client_ids. now rewrite get_or_undef_set_neq by congruence. Qed.

(** C4, as claimed, fails: migration keeps a record that has neither
    [clientId] nor [clientIndex], and that record names no client. *)
Lemma referential_integrity_counterexample :
  snd (migrateState demo_entropy 0 orphan_doc) = Normal /\
  referential_integrity (fst (fst (migrateState demo_entropy 0 orphan_doc))) = false.
Proof. split; vm_compute; reflexivity. Qed.

Lemma get_or_undef_VArr_container o k l ps :
  get_or_undef o k = VArr l ps -> is_container o.
Proof. destruct o; simpl; try discriminate; auto. Qed.

(** The store after [push_record] on a collection. *)
Lemma push_record_integrity state coll other rec :
  (coll = "progress" /\ other = "events" \/ coll = "events" /\ other = "progress") ->
  referential_integrity state = true ->
  exists l ps, get_or_undef state coll = VArr l ps /\
    fst (push_record state coll rec) = set state coll (VArr (app l [rec]) ps) /\
    referential_integrity (set state coll (VArr (app l [rec]) ps))
    = record_linked (client_ids state) rec.
Proof.
  intros Hc Hri. unfold referential_integrity in *.
  destruct (get_or_undef state "progress") as [| | | | |ps pps|] eqn:Hp; try discriminate;
  destruct (get_or_undef state "events") as [| | | | |evs eps|] eqn:He; try discriminate.
  apply andb_true_iff in Hri. destruct Hri as [Hps Hevs].
  pose proof (get_or_undef_VArr_container _ _ _ _ Hp) as Hcont.
  destruct Hc as [[-> ->]|[-> ->]].
  - exists ps, pps. unfold push_record. rewrite Hp. repeat split.
    rewrite client_ids_set_neq by discriminate.
    rewrite (has_get_or_undef _ _ _ (has_set_eq _ _ _ Hcont)).
    rewrite get_or_undef_set_neq, He by discriminate.
    rewrite forallb_app_one, Hps, Hevs. simpl. now rewrite andb_true_r.
  - exists evs, eps. unfold push_record. rewrite He. repeat split.
    rewrite client_ids_set_neq by discriminate.
    rewrite (has_get_or_undef _ _ _ (has_set_eq _ _ _ Hcont)).
    rewrite get_or_undef_set_neq, Hp by discriminate.
    rewrite forallb_app_one, Hps, Hevs. reflexivity.
Qed.

Lemma record_linked_new ids cid date x v :
  x = "weight" \/ x = "note" ->
  record_linked ids (VObj [("clientId", VStr cid); ("date", VStr date); (x, v)])
  = existsb (strict_eq (VStr cid)) ids.
Proof.
  intros [-> | ->]; unfold record_linked, has_clientIndex; simpl;
    apply andb_true_r.
Qed.

(** C4, amended.  Migration leaves no [clientIndex] field on any record; a
    record it resolved from a legacy [clientIndex] has a [clientId] [===]
    to the id of a client of the migrated sequence; any other record is
    the input record minus [clientIndex], kept because its [clientId] is
    truthy or its [clientIndex] is not a number, with no check that its
    [clientId] names a client.  [addProgressRecord] and [addEvent], given a
    non-empty [clientId] and date, append a record without [clientIndex]
    and without checking its [clientId]: from a store satisfying the
    invariant, they keep it exactly when that [clientId] is a client's id. *)
Theorem referential_integrity_amended :
  (forall e k state st' k' coll,
     migrateState e k state = (st', k', Normal) ->
     coll = "progress" \/ coll = "events" ->
     exists cs' recs rps recs',
       get st' "clients" = Some (VArr cs' []) /\
       get state coll = Some (VArr recs rps) /\
       get st' coll = Some (VArr recs' []) /\
       forall r', In r' recs' ->
         has_clientIndex r' = false /\
         ((exists c, In c cs' /\
             strict_eq (get_or_undef r' "clientId") (get_or_undef c "id") = true) \/
          (exists r, In r recs /\ r' = VObj (remove_key "clientIndex" (spread r)) /\
             (truthy (get_or_undef r "clientId") = true \/
              is_number (get_or_undef r "clientIndex") = false))))
  /\
  (forall state cid date weight_or_note,
     referential_integrity state = true -> cid <> "" -> date <> "" ->
     referential_integrity (fst (addProgressRecord state cid date weight_or_note))
       = existsb (strict_eq (VStr cid)) (client_ids state) /\
     referential_integrity (fst (addEvent state cid date weight_or_note))
       = existsb (strict_eq (VStr cid)) (client_ids state)).
Proof.
  split.
  - intros e k state st' k' coll Hm Hcoll.
    destruct (migrateState_Normal _ _ _ _ _ Hm)
      as [cs [ps [cs' [ids [p [ev [Hcl [Hmc [Hp [Hev Hst]]]]]]]]]].
    pose proof (get_VArr_container _ _ _ _ Hcl) as Hscont.
    destruct (migrateState_Normal_reads _ _ _ _ _ Hscont Hst) as [Rc [Rp Re]].
    pose proof (migrate_clients_ids _ _ _ _ _ _ Hmc) as Hids.
    assert (Hcol : exists recs rps recs',
               get_or_undef state coll = VArr recs rps /\
               migrate_records ids recs = Some recs' /\ get st' coll = Some (VArr recs' [])).
    { assert (Hm' : migrate_collection ids (get_or_undef state coll) = Some (get_or_undef st' coll)).
      { destruct Hcoll as [-> | ->]; unfold get_or_undef at 2; [rewrite Rp|rewrite Re]; assumption. }
      destruct (get_or_undef state coll) as [| | | | |recs rps|]; try discriminate.
      simpl in Hm'. destruct (migrate_records ids recs) as [recs'|] eqn:Hr; [|discriminate].
      exists recs, rps, recs'. repeat split; auto.
      destruct Hcoll as [-> | ->]; [rewrite Rp|rewrite Re];
        unfold get_or_undef in Hm'; [rewrite Rp in Hm'|rewrite Re in Hm']; now inversion Hm'. }
    destruct Hcol as [recs [rps [recs' [Hin [Hmr Hout]]]]].
    exists cs', recs, rps, recs'. refine (conj Rc (conj _ (conj Hout _))).
    + rewrite (container_get _ _ Hscont), Hin. reflexivity.
    + intros r' Hr'. destruct (migrate_records_origin _ _ _ _ Hmr Hr')
        as [r [y [Hr [Hres [Hty ->]]]]].
      split; [unfold has_clientIndex; now rewrite assoc_remove_key|].
      unfold resolve_record in Hres.
      destruct (get r "clientId") as [cid|] eqn:Hcid; [|discriminate].
      destruct (negb (truthy cid) && is_number (get_or_undef r "clientIndex")) eqn:Hc.
      * left. destruct (truthy (map_get ids (get_or_undef r "clientIndex"))) eqn:Hv;
          [|inversion Hres; subst; discriminate].
        inversion Hres; subst y. clear Hres.
        set (v := map_get ids (get_or_undef r "clientIndex")) in *.
        assert (Hv' : get_or_undef (VObj (remove_key "clientIndex"
                   (spread (VObj (assoc_set "clientId" v (spread r)))))) "clientId" = v).
        { unfold get_or_undef. simpl.
          rewrite assoc_remove_key_neq, assoc_assoc_set_eq by discriminate. reflexivity. }
        rewrite Hv'.
        unfold v, map_get in Hv |- *.
        destruct (get_or_undef r "clientIndex") as [| | |n| | |]; try discriminate.
        unfold index_lookup in Hv |- *. destruct (0 <=? n)%Z; [|discriminate].
        destruct (nth_error ids (Z.to_nat n)) as [w|] eqn:Hw; [|discriminate].
        rewrite Hids in Hw. destruct (nth_error_map_In _ _ _ _ Hw) as [c [Hc' ->]].
        exists c. split; [exact Hc'|apply value_eqb_refl].
      * right. inversion Hres; subst y. clear Hres. exists r. split; [exact Hr|split; [reflexivity|]].
        unfold get_or_undef at 1. rewrite Hcid.
        destruct (truthy cid); [left; reflexivity|right].
        simpl in Hc. exact Hc.
  - intros state cid date w Hri Hcid Hdate.
    unfold addProgressRecord, addEvent.
    destruct (String.eqb_spec cid "") as [|_]; [contradiction|].
    destruct (String.eqb_spec date "") as [|_]; [contradiction|].
    split.
    + destruct (push_record_integrity state "progress" "events"
                  (VObj [("clientId", VStr cid); ("date", VStr date); ("weight", VStr w)])
                  (or_introl (conj eq_refl eq_refl)) Hri) as [l [ps [_ [-> ->]]]].
      apply record_linked_new; auto.
    + destruct (push_record_integrity state "events" "progress"
                  (VObj [("clientId", VStr cid); ("date", VStr date); ("note", VStr w)])
                  (or_intror (conj eq_refl eq_refl)) Hri) as [l [ps [_ [-> ->]]]].
      apply record_linked_new; auto.
Qed.

Lemma referential_integrity_amended_witness :
  (exists cs' recs rps recs',
     get (fst (fst (migrateState demo_entropy 0 legacy_state))) "clients" = Some (VArr cs' []) /\
     get legacy_state "progress" = Some (VArr recs rps) /\
     get (fst (fst (migrateState demo_entropy 0 legacy_state))) "progress" = Some (VArr recs' []))
  /\ referential_integrity (fst (addProgressRecord sample_store "c-ann" "2024-02-01" "71")) = true
  /\ referential_integrity (fst (addEvent sample_store "c-zed" "2024-02-01" "call")) = false.
Proof.
  destruct (referential_integrity_amended) as [Hmig Hadd].
  split; [|split].
  - destruct (Hmig demo_entropy 0 legacy_state
                (fst (fst (migrateState demo_entropy 0 legacy_state)))
                (snd (fst (migrateState demo_entropy 0 legacy_state))) "progress")
      as [cs' [recs [rps [recs' [H1 [H2 [H3 _]]]]]]].
    + vm_compute. reflexivity.
    + left. reflexivity.
    + exists cs', recs, rps, recs'. split; [exact H1|split; [exact H2|exact H3]].
  - destruct (Hadd sample_store "c-ann" "2024-02-01" "71") as [H _].
    + vm_compute. reflexivity.
    + discriminate.
    + discriminate.
    + rewrite H. vm_compute. reflexivity.
  - destruct (Hadd sample_store "c-zed" "2024-02-01" "call") as [_ H].
    + vm_compute. reflexivity.
    + discriminate.
    + discriminate.
    + rewrite H. vm_compute. reflexivity.
Defined.

Lemma migrateState_settings e k st :
  get (fst (fst (migrateState e k st))) "settings" = get st "settings".
Proof.
  unfold migrateState.
  destruct (get st "clients") as [[| | | | |cs ps|]|]; try reflexivity.
  destruct (migrate_clients e k cs) as [[[cs' ids] k1] []].
  - destruct (migrate_collection ids _) as [p|];
      [destruct (migrate_collection ids _) as [ev|]|]; simpl;
      rewrite ?get_set_neq by discriminate; reflexivity.
  - simpl. rewrite get_set_neq by discriminate. reflexivity.
Qed.

Lemma apply_settings_nullish st s :
  get st "settings" = Some s -> nonnullish s = false -> apply_settings st = None.
Proof.
  intros H Hs. unfold apply_settings. rewrite H.
  destruct s; try discriminate; reflexivity.
Qed.

(** C8, counterexample.  Loading a stored document without [settings]
    ends in a TypeError, and the store then has no [settings]: nothing
    substituted the defaults. *)
Lemma migrate_default_settings_counterexample :
  snd (loadState demo_entropy 0 (StoredDoc nosettings_doc)) = Thrown /\
  get (fst (fst (loadState demo_entropy 0 (StoredDoc nosettings_doc)))) "settings"
  = Some VUndef.
Proof. split; vm_compute; reflexivity. Qed.

(** C8, amended.  The Migration Engine leaves [settings] exactly as it
    found it, whatever the outcome; when a loaded or restored document's
    [settings] is missing (or [null]) and migration completes, no default is
    substituted: the store keeps the missing [settings], and [loadState] and
    the restore handler both fail when they read [state.settings.theme]. *)
Theorem migrate_keeps_settings :
  (forall e k st,
     get (fst (fst (migrateState e k st))) "settings" = get st "settings") /\
  (forall e k doc s st' k',
     get doc "settings" = Some s -> nonnullish s = false ->
     migrateState e k doc = (st', k', Normal) ->
     get st' "settings" = Some s /\
     loadState e k (StoredDoc doc) = (st', k', Thrown) /\
     forall state, restore e k (Parsed doc) state = (st', k', Thrown)).
Proof.
  split; [exact migrateState_settings|].
  intros e k doc s st' k' Hs Hn Hm.
  assert (Hst : get st' "settings" = Some s).
  { rewrite <- Hs, <- (migrateState_settings e k doc), Hm. reflexivity. }
  pose proof (apply_settings_nullish _ _ Hst Hn) as Ha.
  split; [exact Hst|split].
  - unfold loadState. rewrite Hm, Ha. reflexivity.
  - intros state. unfold restore. rewrite Hm, Ha. reflexivity.
Qed.

Lemma migrate_keeps_settings_witness :
  get (fst (fst (migrateState demo_entropy 0 nosettings_doc))) "settings" = Some VUndef /\
  loadState demo_entropy 0 (StoredDoc nosettings_doc)
  = (fst (fst (migrateState demo_entropy 0 nosettings_doc)),
     snd (fst (migrateState demo_entropy 0 nosettings_doc)), Thrown).
Proof.
  destruct migrate_keeps_settings as [_ H].
  destruct (H demo_entropy 0 nosettings_doc VUndef
              (fst (fst (migrateState demo_entropy 0 nosettings_doc)))
              (snd (fst (migrateState demo_entropy 0 nosettings_doc))))
    as [H1 [H2 _]].
  - reflexivity.
  - reflexivity.
  - vm_compute. reflexivity.
  - split; [exact H1|exact H2].
Defined.

(** C1, counterexample.  Restoring the JSON document [{}] fails, yet the
    store has already been replaced by it. *)
Lemma restore_isolation_counterexample :
  snd (restore demo_entropy 0 (Parsed (VObj [])) initial_state) = Thrown /\
  fst (fst (restore demo_entropy 0 (Parsed (VObj [])) initial_state)) <> initial_state.
Proof. split; [vm_compute; reflexivity|vm_compute; discriminate]. Qed.

(** C1, amended.  Input [JSON.parse] rejects fails and leaves the store
    unchanged.  Parsed input is not checked against the shape of the state:
    the outcome does not depend on the store before the call, and a
    document in another shape (here [exercises] a string and the theme a
    number) is adopted and migrated without any failure. *)
Theorem restore_amended :
  (forall e k st, restore e k ParseError st = (st, k, Thrown)) /\
  (forall e k doc st1 st2, restore e k (Parsed doc) st1 = restore e k (Parsed doc) st2) /\
  restore demo_entropy 0 (Parsed malformed_doc) initial_state = (malformed_doc, 0, Normal).
Proof.
  split; [reflexivity|split; [reflexivity|]].
  vm_compute. reflexivity.
Qed.

Lemma json_roundtrip_data : forall v, json_data v = true -> json_roundtrip v = v.
Proof.
  fix IH 1. intros [| | b | n | s | l ps | fs] H; try reflexivity.
  - simpl in H. apply andb_prop in H. destruct H as [Hl Hps].
    destruct ps; [|discriminate]. simpl. f_equal.
    revert l Hl. fix IHl 1. intros [|x r] Hl; [reflexivity|].
    simpl in Hl. apply andb_prop in Hl. destruct Hl as [Hx Hr].
    pose proof (IH x Hx) as Ex. pose proof (IHl r Hr) as Er.
    destruct x; [discriminate|..];
      simpl; f_equal; first [exact Ex | exact Er].
  - simpl. f_equal. simpl in H.
    revert fs H. fix IHf 1. intros [|[k x] r] Hf; [reflexivity|].
    simpl in Hf. apply andb_prop in Hf. destruct Hf as [Hx Hr].
    pose proof (IH x Hx) as Ex. pose proof (IHf r Hr) as Er.
    destruct x; [discriminate|..];
      simpl; f_equal; first [exact (f_equal (pair k) Ex) | exact Er].
Qed.

Lemma json_data_assoc fs k v :
  json_data (VObj fs) = true -> assoc k fs = Some v -> json_data v = true.
Proof.
  induction fs as [|[k' x] r IH]; simpl; [discriminate|].
  intros H. apply andb_prop in H. destruct H as [Hx Hr].
  destruct (String.eqb k k'); [intros [= <-]; exact Hx|].
  apply IH. exact Hr.
Qed.

Lemma json_data_VArr l ps : json_data (VArr l ps) = true -> ps = [].
Proof.
  simpl. intros H. apply andb_prop in H. destruct H as [_ H].
  destruct ps; [reflexivity|discriminate].
Qed.

Lemma has_of_get_or_undef o k :
  is_container o -> get_or_undef o k <> VUndef -> has o k (get_or_undef o k).
Proof.
  destruct o; simpl; try contradiction; intros _; unfold get_or_undef; simpl;
    match goal with |- context [assoc ?k ?fs] => destruct (assoc k fs) end;
    congruence.
Qed.

Lemma store_array fs k l ps :
  json_data (VObj fs) = true -> get_or_undef (VObj fs) k = VArr l ps ->
  ps = [] /\ has (VObj fs) k (VArr l []).
Proof.
  intros Hj Hk.
  assert (Hh : has (VObj fs) k (VArr l ps)).
  { rewrite <- Hk. apply has_of_get_or_undef; [exact I|]. rewrite Hk. discriminate. }
  pose proof (json_data_VArr _ _ (json_data_assoc _ _ _ Hj Hh)) as ->.
  split; [reflexivity|exact Hh].
Qed.

Lemma store_wfb_inv st :
  store_wfb st = true ->
  json_data st = true /\
  exists fs cs ps xs recs evs,
    st = VObj fs /\
    has st "clients" (VArr cs []) /\ has st "programs" (VArr ps []) /\
    has st "exercises" (VArr xs []) /\ has st "progress" (VArr recs []) /\
    has st "events" (VArr evs []) /\
    settings_wfb (get_or_undef st "settings") = true /\
    forallb client_wfb cs = true /\ forallb program_wfb ps = true /\
    forallb exercise_wfb xs = true /\ forallb record_wfb recs = true /\
    forallb record_wfb evs = true.
Proof.
  unfold store_wfb. intros H. apply andb_prop in H. destruct H as [Hj H].
  split; [exact Hj|].
  destruct st as [| | | | | |fs]; try discriminate.
  destruct (get_or_undef (VObj fs) "clients") as [| | | | |cs cps|] eqn:Hcl; try discriminate.
  destruct (get_or_undef (VObj fs) "programs") as [| | | | |ps pps|] eqn:Hpg; try discriminate.
  destruct (get_or_undef (VObj fs) "exercises") as [| | | | |xs xps|] eqn:Hxs; try discriminate.
  destruct (get_or_undef (VObj fs) "progress") as [| | | | |recs rps|] eqn:Hpr; try discriminate.
  destruct (get_or_undef (VObj fs) "events") as [| | | | |evs eps|] eqn:Hev; try discriminate.
  apply andb_prop in H. destruct H as [H Hset].
  apply andb_prop in H. destruct H as [H _].
  apply andb_prop in H. destruct H as [H Hevs].
  apply andb_prop in H. destruct H as [H Hrecs].
  apply andb_prop in H. destruct H as [H Hxs'].
  apply andb_prop in H. destruct H as [H Hps'].
  apply andb_prop in H. destruct H as [Hcs _].
  destruct (store_array _ _ _ _ Hj Hcl) as [_ Hcl'].
  destruct (store_array _ _ _ _ Hj Hpg) as [_ Hpg'].
  destruct (store_array _ _ _ _ Hj Hxs) as [_ Hxs''].
  destruct (store_array _ _ _ _ Hj Hpr) as [_ Hpr'].
  destruct (store_array _ _ _ _ Hj Hev) as [_ Hev'].
  exists fs, cs, ps, xs, recs, evs. tauto.
Qed.

Lemma migrate_clients_wf e k cs :
  forallb client_wfb cs = true ->
  migrate_clients e k cs = (cs, map (fun c => get_or_undef c "id") cs, k, Normal).
Proof.
  induction cs as [|c rest IH]; simpl; [reflexivity|].
  intros H. apply andb_prop in H. destruct H as [Hc Hr].
  assert (Hm : migrate_client e k c = Some (c, k)).
  { destruct c as [| | | | | |fs]; try discriminate.
    apply andb_prop in Hc. destruct Hc as [Hid _].
    unfold migrate_client. rewrite (container_get (VObj fs) "id" I).
    destruct (get_or_undef (VObj fs) "id") as [| | | |s| |]; try discriminate.
    simpl in Hid |- *. rewrite Hid. reflexivity. }
  rewrite Hm, (IH Hr). reflexivity.
Qed.

Lemma record_wfb_stripped r : record_wfb r = true -> stripped r.
Proof.
  destruct r as [| | | | | |fs]; try discriminate. intros H.
  apply andb_prop in H. destruct H as [_ H]. unfold has_clientIndex in H.
  exists fs. split; [reflexivity|].
  destruct (assoc "clientIndex" fs); [discriminate|reflexivity].
Qed.

Lemma forallb_impl {A} (f g : A -> bool) l :
  (forall x, f x = true -> g x = true) -> forallb f l = true -> forallb g l = true.
Proof.
  intros Hfg. rewrite !forallb_forall. intros H x Hx. apply Hfg, H, Hx.
Qed.

Lemma migrate_collection_wf ids recs :
  forallb record_wfb recs = true -> migrate_collection ids (VArr recs []) = Some (VArr recs []).
Proof.
  intros H. simpl. rewrite migrate_records_stripped; [reflexivity|].
  apply Forall_forall. intros x Hx. apply record_wfb_stripped.
  rewrite forallb_forall in H. apply H, Hx.
Qed.

Lemma migrateState_wf e k st :
  store_wfb st = true -> migrateState e k st = (st, k, Normal).
Proof.
  intros H. destruct (store_wfb_inv _ H)
    as [_ (fs & cs & ps & xs & recs & evs & -> & Hcl & _ & _ & Hpr & Hev & _ & Hcs & _ & _ & Hrecs & Hevs)].
  unfold migrateState. rewrite (has_get _ _ _ Hcl), (migrate_clients_wf _ _ _ Hcs).
  cbv beta iota zeta. rewrite (set_has _ _ _ Hcl).
  rewrite (has_get_or_undef _ _ _ Hpr), (migrate_collection_wf _ _ Hrecs).
  cbv beta iota zeta. rewrite (set_has _ _ _ Hpr).
  rewrite (has_get_or_undef _ _ _ Hev), (migrate_collection_wf _ _ Hevs).
  rewrite (set_has _ _ _ Hev). reflexivity.
Qed.

Lemma is_str_succeeds v : is_str v = true -> succeeds (to_string_exn v) = true.
Proof. destruct v; try discriminate; reflexivity. Qed.

Lemma opt_str_or_blank v : opt_str v = true -> succeeds (or_blank v) = true.
Proof.
  destruct v; try discriminate; intros _; [reflexivity|].
  unfold or_blank. destruct (truthy _); reflexivity.
Qed.

Lemma apply_settings_wf st : store_wfb st = true -> apply_settings st = Some st.
Proof.
  intros H. destruct (store_wfb_inv _ H)
    as [_ (fs & _ & _ & _ & _ & _ & -> & _ & _ & _ & _ & _ & Hset & _)].
  unfold apply_settings. rewrite (container_get (VObj fs) "settings" I).
  destruct (get_or_undef (VObj fs) "settings") as [| | | | | |sfs] eqn:Hs;
    try discriminate.
  rewrite (container_get (VObj sfs) "theme" I).
  apply andb_prop in Hset. destruct Hset as [Htheme Hlang].
  rewrite (is_str_succeeds _ Htheme), (is_str_succeeds _ Hlang).
  rewrite (set_has (VObj sfs) "language").
  - rewrite <- Hs, (set_has (VObj fs) "settings"); [reflexivity|].
    apply has_of_get_or_undef; [exact I|]. rewrite Hs. discriminate.
  - apply has_of_get_or_undef; [exact I|].
    destruct (get_or_undef (VObj sfs) "language"); discriminate.
Qed.

Lemma json_data_In l ps x : json_data (VArr l ps) = true -> In x l -> json_data x = true.
Proof.
  simpl. intros H. apply andb_prop in H. destruct H as [H _].
  induction l as [|y r IH]; simpl in *; [contradiction|].
  apply andb_prop in H. destruct H as [Hy Hr].
  intros [<-|Hin]; [exact Hy|exact (IH Hr Hin)].
Qed.

Lemma is_str_opt_str v : is_str v = true -> opt_str v = true.
Proof. destruct v; try discriminate; reflexivity. Qed.

Lemma find_exn_total (p : value -> option bool) l :
  (forall x, In x l -> p x <> None) ->
  exists r, find_exn p l = Some r /\ forall c, r = Some c -> In c l.
Proof.
  induction l as [|x l IH]; simpl; intros Hp.
  - exists None. split; [reflexivity|discriminate].
  - destruct (p x) as [[|]|] eqn:Hx.
    + exists (Some x). split; [reflexivity|]. intros c [= <-]. left. reflexivity.
    + destruct IH as [r [Hr Hin]]; [intros y Hy; apply Hp; right; exact Hy|].
      exists r. split; [exact Hr|]. intros c Hc. right. apply Hin, Hc.
    + exfalso. apply (Hp x); [left; reflexivity|exact Hx].
Qed.

Lemma array_join_str sep l : forallb is_str l = true -> exists t, array_join sep l = Some t.
Proof.
  induction l as [|x r IH]; intros H; [eexists; reflexivity|].
  simpl in H. apply andb_prop in H. destruct H as [Hx Hr].
  destruct x; try discriminate.
  destruct r as [|y r']; [eexists; reflexivity|].
  destruct (IH Hr) as [t Ht]. eexists.
  change (array_join sep (VStr s :: y :: r'))
    with (match Some s, array_join sep (y :: r') with
          | Some a, Some b => Some (a ++ sep ++ b)
          | _, _ => None
          end).
  rewrite Ht. reflexivity.
Qed.

Lemma renders_list_arr d f l :
  d = true -> forallb f l = true -> renders_list d f (VArr l []) = true.
Proof. intros -> H. destruct l; [reflexivity|exact H]. Qed.

Lemma renderAll_wf st :
  store_wfb st = true -> optional_fields_wfb st = true -> renderAll_ok st = true.
Proof.
  intros H Ho. destruct (store_wfb_inv _ H)
    as [Hj (fs & cs & ps & xs & recs & evs & -> & Hcl & Hpg & Hxs & Hpr & Hev &
            Hset & Hcs & Hps & Hxs' & _ & Hevs)].
  unfold optional_fields_wfb in Ho.
  rewrite (has_get_or_undef _ _ _ Hcl), (has_get_or_undef _ _ _ Hxs),
    (has_get_or_undef _ _ _ Hpr), (has_get_or_undef _ _ _ Hev) in Ho.
  apply andb_prop in Ho. destruct Ho as [Ho Hoev].
  apply andb_prop in Ho. destruct Ho as [Ho _].
  apply andb_prop in Ho. destruct Ho as [Hocs Hoxs].
  rewrite forallb_forall in Hcs, Hps, Hxs', Hevs, Hocs, Hoxs, Hoev.
  assert (Hdict : getDict_ok (VObj fs) = true).
  { unfold getDict_ok. rewrite (container_get (VObj fs) "settings" I).
    destruct (get_or_undef (VObj fs) "settings") as [| | | | | |sfs]; try discriminate.
    rewrite (container_get (VObj sfs) "language" I).
    apply andb_prop in Hset. destruct Hset as [_ Hl]. apply is_str_succeeds, Hl. }
  assert (Hsel : settings_selects_ok (VObj fs) = true).
  { unfold settings_selects_ok. rewrite (container_get (VObj fs) "settings" I).
    destruct (get_or_undef (VObj fs) "settings") as [| | | | | |sfs]; try discriminate.
    rewrite (container_get (VObj sfs) "theme" I), (container_get (VObj sfs) "language" I).
    apply andb_prop in Hset. destruct Hset as [Ht Hl].
    rewrite (is_str_succeeds _ Ht), (is_str_succeeds _ Hl). reflexivity. }
  assert (Hclient : forall c, In c cs ->
            exists cfs, c = VObj cfs /\ is_str (get_or_undef c "name") = true).
  { intros c Hc. specialize (Hcs c Hc). destruct c as [| | | | | |cfs]; try discriminate.
    apply andb_prop in Hcs. exists cfs. split; [reflexivity|]. apply Hcs. }
  unfold renderAll_ok. cbv zeta. rewrite Hdict, Hsel.
  rewrite (has_get_or_undef _ _ _ Hcl), (has_get_or_undef _ _ _ Hpg),
    (has_get_or_undef _ _ _ Hxs), (has_get_or_undef _ _ _ Hev).
  rewrite (renders_list_arr _ _ _ eq_refl).
  2:{ apply forallb_forall. intros c Hc. specialize (Hocs c Hc).
      destruct (Hclient c Hc) as [cfs [-> Hn]].
      apply andb_prop in Hocs. destruct Hocs as [Ha Hw].
      unfold client_renders. rewrite (is_str_succeeds _ Hn), (opt_str_or_blank _ Ha),
        (opt_str_or_blank _ Hw). reflexivity. }
  rewrite (renders_list_arr _ _ _ eq_refl).
  2:{ apply forallb_forall. intros p Hp. pose proof (Hps p Hp) as Hpw.
      assert (Hjp : json_data p = true).
      { apply (json_data_In ps []); [|exact Hp]. exact (json_data_assoc _ _ _ Hj Hpg). }
      destruct p as [| | | | | |pfs]; try discriminate.
      apply andb_prop in Hpw. destruct Hpw as [Hn Hex].
      unfold program_renders. rewrite (is_str_succeeds _ Hn). simpl.
      unfold get_or_undef in Hex |- *. simpl in Hex |- *.
      destruct (assoc "exercises" pfs) as [ex|] eqn:He; try discriminate.
      destruct ex as [| | | | |l eps|]; try discriminate.
      rewrite (json_data_VArr _ _ (json_data_assoc _ _ _ Hjp He)). simpl.
      destruct (array_join_str ", " l Hex) as [t ->]. reflexivity. }
  rewrite (renders_list_arr _ _ _ eq_refl).
  2:{ apply forallb_forall. intros x Hx. specialize (Hxs' x Hx). specialize (Hoxs x Hx).
      destruct x as [| | | | | |xfs]; try discriminate.
      unfold exercise_renders. rewrite (is_str_succeeds _ Hxs'), (opt_str_or_blank _ Hoxs).
      reflexivity. }
  rewrite (renders_list_arr _ _ _ eq_refl).
  2:{ apply forallb_forall. intros ev Hev'. specialize (Hevs ev Hev'). specialize (Hoev ev Hev').
      destruct ev as [| | | | | |efs]; try discriminate.
      apply andb_prop in Hevs. destruct Hevs as [Hevs _].
      apply andb_prop in Hevs. destruct Hevs as [_ Hd].
      unfold event_renders. simpl own. cbv beta iota.
      destruct (find_exn_total
                  (fun c => match get c "id" with
                            | None => None
                            | Some id => option_map (strict_eq id) (get (VObj efs) "clientId")
                            end) cs) as [found [-> Hfound]].
      { intros c Hc. destruct (Hclient c Hc) as [cfs [-> _]]. simpl. discriminate. }
      rewrite (is_str_succeeds _ Hd), (opt_str_or_blank _ Hoev).
      destruct found as [c|].
      - destruct (Hclient c (Hfound c eq_refl)) as [_ [_ Hn]].
        rewrite (opt_str_or_blank _ (is_str_opt_str _ Hn)). reflexivity.
      - reflexivity. }
  assert (Hs : select_renders (VObj fs) = true).
  { unfold select_renders. rewrite Hdict, (has_get_or_undef _ _ _ Hcl). simpl.
    apply forallb_forall. intros c Hc. pose proof (Hcs c Hc) as Hcw.
    destruct (Hclient c Hc) as [cfs [-> Hn]].
    apply andb_prop in Hcw. destruct Hcw as [Hid _].
    assert (Hid' : is_str (get_or_undef (VObj cfs) "id") = true).
    { destruct (get_or_undef (VObj cfs) "id"); try discriminate; reflexivity. }
    rewrite (is_str_succeeds _ Hid'), (is_str_succeeds _ Hn), orb_true_r. reflexivity. }
  rewrite Hs. reflexivity.
Qed.

(** C9.  For a store in the post-migration shape ([store_wfb]: the
    invariants of section 3 over JSON data) whose optional fields are
    strings where present, as the data model of section 3 has them
    ([optional_fields_wfb]), restoring the file the backup button writes ([JSON.stringify(state)], parsed back) ends normally and
    leaves the store equal to what it was before: the same clients with the
    same ids, the same programs with their exercise names in the same order,
    the same exercises, progress records, events and settings; no id is
    generated. *)
Theorem restore_export_roundtrip e k st :
  store_wfb st = true -> optional_fields_wfb st = true ->
  restore e k (exportState st) st = (st, k, Normal).
Proof.
  intros H Ho. unfold restore, exportState.
  destruct (store_wfb_inv _ H) as [Hj _].
  rewrite (json_roundtrip_data _ Hj), (migrateState_wf _ _ _ H).
  cbv beta iota zeta. rewrite (apply_settings_wf _ H), (renderAll_wf _ H Ho).
  reflexivity.
Qed.

Lemma restore_export_roundtrip_witness :
  store_wfb sample_store = true /\
  restore demo_entropy 0 (exportState sample_store) sample_store
  = (sample_store, 0, Normal).
Proof.
  split; [vm_compute; reflexivity|].
  apply restore_export_roundtrip; vm_compute; reflexivity.
Defined.

(** ** Form fields *)

Lemma drop_space_all l : forallb is_js_space l = true -> drop_space l = [].
Proof.
  induction l as [|c r IH]; simpl; [reflexivity|].
  intros H. apply andb_prop in H. destruct H as [Hc Hr]. rewrite Hc. apply IH, Hr.
Qed.

Lemma trim_blank s : forallb is_js_space (list_ascii_of_string s) = true -> trim s = "".
Proof. intros H. unfold trim. rewrite (drop_space_all _ H). reflexivity. Qed.

Lemma drop_space_idem l : drop_space (drop_space l) = drop_space l.
Proof.
  induction l as [|c r IH]; simpl; [reflexivity|].
  destruct (is_js_space c) eqn:Hc; [exact IH|]. simpl. rewrite Hc. reflexivity.
Qed.

Lemma drop_space_app_nonspace l c :
  is_js_space c = false -> drop_space (app l [c]) = app (drop_space l) [c].
Proof.
  intros Hc. induction l as [|d r IH]; simpl; [rewrite Hc; reflexivity|].
  destruct (is_js_space d); [exact IH|reflexivity].
Qed.

Lemma drop_space_head l c m : drop_space l = c :: m -> is_js_space c = false.
Proof.
  induction l as [|d r IH]; simpl; [discriminate|].
  destruct (is_js_space d) eqn:Hd; [exact IH|]. intros [= <- _]. exact Hd.
Qed.

Lemma drop_space_In l x : In x (drop_space l) -> In x l.
Proof.
  induction l as [|d r IH]; simpl; [tauto|].
  destruct (is_js_space d); [intros H; right; apply IH, H|tauto].
Qed.

(** The list form of [trim]. *)
Lemma trim_list_idem l : trim_list (trim_list l) = trim_list l.
Proof.
  unfold trim_list.
  destruct (drop_space l) as [|c m] eqn:Hl; [reflexivity|].
  pose proof (drop_space_head _ _ _ Hl) as Hc.
  set (u := rev (drop_space (rev m))).
  assert (E1 : rev (drop_space (rev (c :: m))) = c :: u).
  { change (rev (c :: m)) with (app (rev m) [c]).
    rewrite (drop_space_app_nonspace _ _ Hc), rev_app_distr. reflexivity. }
  rewrite E1. cbn [drop_space]. rewrite Hc.
  change (rev (c :: u)) with (app (rev u) [c]). unfold u.
  rewrite rev_involutive, (drop_space_app_nonspace _ _ Hc), drop_space_idem,
    rev_app_distr.
  reflexivity.
Qed.

Lemma trim_list_In l x : In x (trim_list l) -> In x l.
Proof.
  unfold trim_list. intros H. apply in_rev in H. apply drop_space_In in H.
  apply in_rev in H. apply drop_space_In, H.
Qed.

Lemma trim_idem s : trim (trim s) = trim s.
Proof.
  unfold trim. rewrite list_ascii_of_string_of_list_ascii.
  change (string_of_list_ascii (trim_list (trim_list (list_ascii_of_string s)))
          = string_of_list_ascii (trim_list (list_ascii_of_string s))).
  rewrite trim_list_idem. reflexivity.
Qed.

Lemma trim_no_comma s : no_comma s = true -> no_comma (trim s) = true.
Proof.
  unfold no_comma, trim. rewrite list_ascii_of_string_of_list_ascii, !forallb_forall.
  intros H x Hx. apply H, (trim_list_In _ _ Hx).
Qed.

Lemma split_on_cons sep s : exists p ps, split_on sep s = p :: ps.
Proof.
  induction s as [|c r IH]; simpl; [eauto|].
  destruct IH as [p [ps ->]]. destruct (Ascii.eqb c sep); eauto.
Qed.

Lemma split_on_no_comma s : forall x, In x (split_on "," s) -> no_comma x = true.
Proof.
  induction s as [|c r IH]; simpl; intros x Hx.
  - destruct Hx as [<-|[]]. reflexivity.
  - destruct (Ascii.eqb c ",") eqn:Hc.
    + destruct Hx as [<-|Hx]; [reflexivity|apply IH, Hx].
    + revert Hx. destruct (split_on "," r) as [|p ps] eqn:Hr;
        [destruct (split_on_cons "," r) as [? [? H']]; congruence|].
      intros [<-|Hx].
      * unfold no_comma. simpl. rewrite Hc. apply (IH p). try rewrite Hr. left. reflexivity.
      * apply IH. try rewrite Hr. right. exact Hx.
Qed.

Lemma split_on_app_no_comma a s :
  no_comma a = true ->
  split_on "," (a ++ s) =
  match split_on "," s with p :: ps => (a ++ p) :: ps | [] => [a] end.
Proof.
  induction a as [|c r IH]; simpl.
  - intros _. destruct (split_on_cons "," s) as [p [ps ->]]. reflexivity.
  - unfold no_comma. simpl. intros H. apply andb_prop in H. destruct H as [Hc Hr].
    apply negb_true_iff in Hc. rewrite Hc, (IH Hr).
    destruct (split_on_cons "," s) as [p [ps ->]]. reflexivity.
Qed.

Lemma trim_space_cons s : trim (String " " s) = trim s.
Proof. reflexivity. Qed.

Lemma string_app_nil s : s ++ "" = s.
Proof. induction s as [|c r IH]; simpl; [reflexivity|now rewrite IH]. Qed.

Lemma split_join l :
  l <> [] -> Forall (fun x => no_comma x = true /\ trim x = x) l ->
  map trim (split_on "," (join ", " l)) = l.
Proof.
  induction l as [|x r IH]; [contradiction|]. intros _ Hl.
  inversion Hl as [|? ? [Hx Htx] Hr]; subst.
  destruct r as [|y r].
  - simpl. rewrite <- (string_app_nil x) at 1.
    rewrite (split_on_app_no_comma _ _ Hx). simpl. rewrite string_app_nil, Htx.
    reflexivity.
  - change (join ", " (x :: y :: r)) with (x ++ ", " ++ join ", " (y :: r)).
    specialize (IH ltac:(discriminate) Hr).
    remember (join ", " (y :: r)) as J eqn:HJ. clear HJ.
    destruct (split_on_cons "," J) as [p [ps Hs]].
    rewrite (split_on_app_no_comma _ _ Hx). simpl. rewrite Hs.
    rewrite Hs in IH. simpl in IH |- *.
    rewrite string_app_nil, Htx, trim_space_cons.
    exact (f_equal (cons x) IH).
Qed.

Lemma filter_all {A} (f : A -> bool) l : Forall (fun x => f x = true) l -> filter f l = l.
Proof. induction 1 as [|x r Hx _ IH]; simpl; [reflexivity|now rewrite Hx, IH]. Qed.

(** Client, program and exercise forms with a name that is empty or made of
    whitespace only return before touching the store: nothing is added and
    no id is generated. *)
Theorem blank_name_forms e k state name age weight exercises muscle :
  forallb is_js_space (list_ascii_of_string name) = true ->
  addClient e k state name age weight = (state, k, Normal) /\
  addProgram state name exercises = (state, Normal) /\
  addExercise state name muscle = (state, Normal).
Proof.
  intros H. unfold addClient, addProgram, addExercise. rewrite (trim_blank _ H).
  auto.
Qed.

Lemma blank_name_forms_witness :
  addClient demo_entropy 3 sample_store "   " "30" "70" = (sample_store, 3, Normal) /\
  addProgram sample_store "   " "squat" = (sample_store, Normal) /\
  addExercise sample_store "   " "legs" = (sample_store, Normal).
Proof. apply blank_name_forms. reflexivity. Defined.



(** The exercise list a program shows ([program.exercises.join(', ')],
    line 373), typed back into the program form, gives the same list, in
    the same order, when each name is non-empty, holds no comma and has no
    surrounding whitespace (as the program form stores them). *)
Theorem parse_exercises_join l :
  Forall (fun x => x <> "" /\ no_comma x = true /\ trim x = x) l ->
  parse_exercises (join ", " l) = l.
Proof.
  intros Hl. destruct l as [|x r]; [reflexivity|].
  unfold parse_exercises. rewrite split_join.
  - apply filter_all. revert Hl. apply Forall_impl. intros y [Hy _].
    destruct (String.eqb_spec y ""); [contradiction|reflexivity].
  - discriminate.
  - revert Hl. apply Forall_impl. tauto.
Qed.

Lemma parse_exercises_join_witness :
  parse_exercises (join ", " ["squat"; "row"; "press"]) = ["squat"; "row"; "press"].
Proof.
  apply parse_exercises_join.
  repeat constructor; discriminate.
Defined.



(** ** Delete buttons and the other mutations *)

Lemma nth_error_splice_one l idx j :
  nth_error (splice_one l idx) j = nth_error l (if Nat.ltb j idx then j else S j).
Proof.
  unfold splice_one.
  destruct (Nat.le_gt_cases (length l) idx) as [Hle|Hlt].
  - rewrite firstn_all2, skipn_all2, app_nil_r by lia.
    destruct (Nat.ltb_spec j idx); [reflexivity|].
    rewrite !(proj2 (nth_error_None _ _)) by lia. reflexivity.
  - destruct (Nat.ltb_spec j idx).
    + rewrite nth_error_app1 by (rewrite length_firstn; lia).
      rewrite nth_error_firstn. destruct (Nat.ltb_spec j idx); [reflexivity|lia].
    + rewrite nth_error_app2 by (rewrite length_firstn; lia).
      rewrite length_firstn, nth_error_skipn. f_equal. lia.
Qed.

Lemma splice_one_incl l idx x : In x (splice_one l idx) -> In x l.
Proof.
  unfold splice_one. intros H. apply in_app_or in H. destruct H as [H|H].
  - rewrite <- (firstn_skipn idx l). apply in_or_app. left. exact H.
  - rewrite <- (firstn_skipn (S idx) l). apply in_or_app. right. exact H.
Qed.



Lemma ri_inv state :
  referential_integrity state = true ->
  exists ps pps evs eps,
    get_or_undef state "progress" = VArr ps pps /\ get_or_undef state "events" = VArr evs eps /\
    forallb (record_linked (client_ids state)) ps = true /\
    forallb (record_linked (client_ids state)) evs = true.
Proof.
  unfold referential_integrity.
  destruct (get_or_undef state "progress") as [| | | | |ps pps|]; try discriminate;
  destruct (get_or_undef state "events") as [| | | | |evs eps|]; try discriminate.
  intros H. apply andb_prop in H. exists ps, pps, evs, eps. tauto.
Qed.

Lemma ri_set_other state k v :
  k <> "clients" -> k <> "progress" -> k <> "events" ->
  referential_integrity (set state k v) = referential_integrity state.
Proof.
  intros H1 H2 H3. unfold referential_integrity.
  rewrite client_ids_set_neq, !get_or_undef_set_neq by congruence. reflexivity.
Qed.

Lemma push_record_other state coll rec :
  coll <> "clients" -> coll <> "progress" -> coll <> "events" ->
  referential_integrity state = true ->
  referential_integrity (fst (push_record state coll rec)) = true.
Proof.
  intros H1 H2 H3 H. unfold push_record.
  destruct (get_or_undef state coll); simpl; try exact H.
  rewrite ri_set_other by assumption. exact H.
Qed.

Lemma record_linked_app ids ids' r :
  record_linked ids r = true -> record_linked (app ids ids') r = true.
Proof.
  unfold record_linked. rewrite existsb_app. intros H. apply andb_prop in H.
  destruct H as [H1 H2]. rewrite H1, H2. reflexivity.
Qed.

(** The client and program forms, the exercise form, and the delete
    buttons of programs, exercises and events keep the referential
    integrity of the store: a client is only added, and no record is added
    or re-pointed. *)
Theorem integrity_kept_by_other_mutations e k state name age weight text muscle coll idx :
  referential_integrity state = true ->
  referential_integrity (fst (fst (addClient e k state name age weight))) = true /\
  referential_integrity (fst (addProgram state name text)) = true /\
  referential_integrity (fst (addExercise state name muscle)) = true /\
  (coll = "programs" \/ coll = "exercises" \/ coll = "events" ->
   referential_integrity (fst (deleteAt state coll idx)) = true).
Proof.
  intros H.
  destruct (ri_inv _ H) as (ps & pps & evs & eps & Hp & He & Hps & Hevs).
  pose proof (get_or_undef_VArr_container _ _ _ _ Hp) as Hc.
  split; [|split; [|split]].
  - unfold addClient. destruct (String.eqb (trim name) ""); [exact H|].
    destruct (get_or_undef state "clients") as [| | | | |cs cps|] eqn:Hcl; try exact H.
    simpl. unfold referential_integrity.
    rewrite !get_or_undef_set_neq, Hp, He by discriminate.
    assert (Hids : client_ids (set state "clients" (VArr (app cs [VObj [("id", VStr (generateId e "client" k)); ("name", VStr (trim name)); ("age", VStr age); ("weight", VStr weight)]]) cps))
                   = app (client_ids state) [VStr (generateId e "client" k)]).
    { unfold client_ids. rewrite (has_get_or_undef _ _ _ (has_set_eq _ _ _ Hc)), Hcl.
      rewrite map_app. reflexivity. }
    rewrite Hids. apply andb_true_intro. split.
    + revert Hps. apply forallb_impl. intros r. apply record_linked_app.
    + revert Hevs. apply forallb_impl. intros r. apply record_linked_app.
  - unfold addProgram. destruct (String.eqb (trim name) ""); [exact H|].
    apply push_record_other; [discriminate|discriminate|discriminate|exact H].
  - unfold addExercise. destruct (String.eqb (trim name) ""); [exact H|].
    apply push_record_other; [discriminate|discriminate|discriminate|exact H].
  - intros Hcoll. unfold deleteAt.
    destruct Hcoll as [ -> | [ -> | -> ] ].
    + destruct (get_or_undef state "programs"); try exact H. simpl.
      rewrite ri_set_other by discriminate. exact H.
    + destruct (get_or_undef state "exercises"); try exact H. simpl.
      rewrite ri_set_other by discriminate. exact H.
    + rewrite He. simpl. unfold referential_integrity.
      rewrite client_ids_set_neq, get_or_undef_set_neq, Hp by discriminate.
      rewrite (has_get_or_undef _ _ _ (has_set_eq _ _ _ Hc)), Hps. simpl.
      rewrite forallb_forall in Hevs |- *. intros x Hx.
      apply Hevs, (splice_one_incl _ _ _ Hx).
Qed.

Lemma integrity_kept_by_other_mutations_witness :
  referential_integrity (fst (deleteAt sample_store "events" 0)) = true.
Proof.
  destruct (integrity_kept_by_other_mutations demo_entropy 0 sample_store "Dana" "41" "60"
              "squat" "legs" "events" 0) as [_ [_ [_ H]]].
  - vm_compute. reflexivity.
  - apply H. right. right. reflexivity.
Defined.

(** ** Progress table, client select, saved state *)

Lemma filter_exn_app_one {A} (f : A -> option bool) l x shown b :
  filter_exn f l = Some shown -> f x = Some b ->
  filter_exn f (app l [x]) = Some (if b then app shown [x] else shown).
Proof.
  revert shown. induction l as [|y r IH]; simpl; intros shown H Hx.
  - inversion H; subst. rewrite Hx. destruct b; reflexivity.
  - destruct (f y) as [c|]; [|discriminate].
    destruct (filter_exn f r) as [r'|]; [|discriminate].
    inversion H; subst. rewrite (IH r' eq_refl Hx).
    destruct b, c; reflexivity.
Qed.

Lemma push_record_getDict state coll r :
  coll <> "settings" -> getDict_ok (fst (push_record state coll r)) = getDict_ok state.
Proof.
  intros H. unfold push_record. destruct (get_or_undef state coll); try reflexivity.
  unfold getDict_ok. simpl. rewrite get_set_neq by exact H. reflexivity.
Qed.

Lemma progress_row_new cid date w :
  progress_row_ok (VObj [("clientId", VStr cid); ("date", VStr date); ("weight", VStr w)]) = true.
Proof.
  unfold progress_row_ok, or_blank. simpl. destruct (negb (String.eqb w "")); reflexivity.
Qed.

(** After a progress-form submission for the client [clientId] (with a
    date), when the table for the selection [sel] rendered without a
    TypeError before, it renders afterwards: for [clientId] it shows the new
    record after the ones it showed before, and for any other client (or
    the empty selection) it is unchanged. *)
Theorem progress_shown_after_add state clientId date weight sel shown :
  clientId <> "" -> date <> "" ->
  progress_shown state sel = Some shown ->
  progress_shown (fst (addProgressRecord state clientId date weight)) sel =
    Some (if String.eqb clientId sel
          then app shown [VObj [("clientId", VStr clientId); ("date", VStr date);
                                ("weight", VStr weight)]]
          else shown).
Proof.
  intros Hc Hd Hs. unfold addProgressRecord.
  destruct (String.eqb_spec clientId "") as [|_]; [contradiction|].
  destruct (String.eqb_spec date "") as [|_]; [contradiction|].
  unfold progress_shown in Hs |- *.
  destruct (String.eqb_spec sel "") as [->|Hsel].
  - rewrite push_record_getDict by discriminate.
    destruct (getDict_ok state); [|discriminate]. inversion Hs; subst.
    destruct (String.eqb_spec clientId ""); [contradiction|reflexivity].
  - unfold push_record.
    destruct (get_or_undef state "progress") as [| | | | |l ps|] eqn:Hp; try discriminate.
    simpl fst. pose proof (get_or_undef_VArr_container _ _ _ _ Hp) as Hcont.
    rewrite (has_get_or_undef _ _ _ (has_set_eq _ _ _ Hcont)).
    assert (Hg : getDict_ok (set state "progress"
                   (VArr (app l [VObj [("clientId", VStr clientId); ("date", VStr date);
                                       ("weight", VStr weight)]]) ps)) = getDict_ok state)
      by (unfold getDict_ok; rewrite get_set_neq by discriminate; reflexivity).
    rewrite Hg.
    destruct (own "filter" ps); [discriminate|].
    destruct (filter_exn _ l) as [recs|] eqn:Hf; [|discriminate].
    rewrite (filter_exn_app_one _ l
               (VObj [("clientId", VStr clientId); ("date", VStr date); ("weight", VStr weight)])
               recs (String.eqb clientId sel) Hf eq_refl).
    destruct (String.eqb clientId sel); [|exact Hs].
    destruct recs as [|r0 rs].
    + destruct (getDict_ok state); [|discriminate]. inversion Hs; subst.
      simpl. rewrite progress_row_new. reflexivity.
    + destruct (forallb progress_row_ok (r0 :: rs)) eqn:Hfa; [|discriminate].
      inversion Hs; subst.
      assert (Hall : forallb progress_row_ok (app (r0 :: rs)
                [VObj [("clientId", VStr clientId); ("date", VStr date);
                       ("weight", VStr weight)]]) = true)
        by (rewrite forallb_app, Hfa; cbn [andb forallb]; rewrite progress_row_new; reflexivity).
      simpl in Hall |- *. rewrite Hall. reflexivity.
Qed.

Lemma progress_shown_after_add_witness :
  progress_shown (fst (addProgressRecord sample_store "c-ann" "2024-03-01" "59")) "c-ann" =
    Some [VObj [("clientId", VStr "c-ann"); ("date", VStr "2024-01-01"); ("weight", VStr "60")];
          VObj [("clientId", VStr "c-ann"); ("date", VStr "2024-03-01"); ("weight", VStr "59")]].
Proof.
  rewrite (progress_shown_after_add sample_store "c-ann" "2024-03-01" "59" "c-ann"
             [VObj [("clientId", VStr "c-ann"); ("date", VStr "2024-01-01"); ("weight", VStr "60")]]).
  - reflexivity.
  - discriminate.
  - discriminate.
  - vm_compute. reflexivity.
Defined.

Lemma map_exn_In_out {A B} (f : A -> option B) l l' y :
  map_exn f l = Some l' -> In y l' -> exists x, In x l /\ f x = Some y.
Proof.
  revert l'. induction l as [|u r IH]; simpl; intros l' H Hy.
  - inversion H; subst. contradiction.
  - destruct (f u) as [v|] eqn:Hu; [|discriminate].
    destruct (map_exn f r) as [r'|]; [|discriminate].
    inversion H; subst. destruct Hy as [<-|Hy].
    + exists u. auto.
    + destruct (IH r' eq_refl Hy) as [x [Hx Hfx]]. exists x. auto.
Qed.



(** What [saveState()] writes, read back by [loadState()] at the next
    start, gives the same store for a store in the post-migration shape,
    with no id generated. *)
Theorem save_load_roundtrip e k st :
  store_wfb st = true -> loadState e k (saveState st) = (st, k, Normal).
Proof.
  intros H. unfold loadState, saveState.
  destruct (store_wfb_inv _ H) as [Hj _].
  rewrite (json_roundtrip_data _ Hj), (migrateState_wf _ _ _ H).
  cbv beta iota zeta. rewrite (apply_settings_wf _ H). reflexivity.
Qed.

Lemma save_load_roundtrip_witness :
  loadState demo_entropy 0 (saveState sample_store) = (sample_store, 0, Normal).
Proof. apply save_load_roundtrip. vm_compute. reflexivity. Defined.

(** With nothing saved, or saved text that [JSON.parse] rejects,
    [loadState()] leaves the initial store (no clients, theme light,
    language English) in place, generates no id, and that store is in the
    post-migration shape. *)
Theorem loadState_default e k :
  loadState e k NoItem = (initial_state, k, Normal) /\
  loadState e k StoredUnparseable = (initial_state, k, Normal) /\
  store_wfb initial_state = true.
Proof. split; [reflexivity|split; reflexivity]. Qed.

(** ** Client delete of the second snapshot *)

Lemma filter_exn_In_back {A} (f : A -> option bool) l l' x :
  filter_exn f l = Some l' -> In x l -> f x = Some true -> In x l'.
Proof.
  revert l'. induction l as [|y r IH]; simpl; intros l' H Hx Hfx; [contradiction|].
  destruct (f y) as [b|] eqn:Hy; [|discriminate].
  destruct (filter_exn f r) as [r'|] eqn:Hr; [|discriminate].
  inversion H; subst. destruct Hx as [<-|Hx].
  - rewrite Hfx in Hy. inversion Hy; subst. left. reflexivity.
  - destruct b; [right|]; exact (IH r' eq_refl Hx Hfx).
Qed.

Lemma filter_exn_filter {A} (f : A -> option bool) (g : A -> bool) l l' :
  filter_exn f l = Some l' ->
  (forall x, In x l -> f x <> None -> f x = Some (g x)) -> l' = filter g l.
Proof.
  revert l'. induction l as [|y r IH]; simpl; intros l' H Hg.
  - inversion H. reflexivity.
  - destruct (f y) as [b|] eqn:Hy; [|discriminate].
    destruct (filter_exn f r) as [r'|]; [|discriminate].
    rewrite (IH r' eq_refl) in H by (intros x Hx; apply Hg; right; exact Hx).
    assert (Hb : b = g y).
    { pose proof (Hg y (or_introl eq_refl)) as E. rewrite Hy in E.
      assert (E' : Some b = Some (g y)) by (apply E; discriminate).
      inversion E'. reflexivity. }
    subst b. destruct (g y); inversion H; reflexivity.
Qed.

Lemma filter_exn_defined {A} (f : A -> option bool) l l' x :
  filter_exn f l = Some l' -> In x l -> exists b, f x = Some b.
Proof.
  revert l'. induction l as [|y r IH]; simpl; intros l' H Hx; [contradiction|].
  destruct (f y) as [b|] eqn:Hy; [|discriminate].
  destruct (filter_exn f r) as [r'|]; [|discriminate].
  destruct Hx as [<-|Hx]; [exists b; exact Hy|exact (IH r' eq_refl Hx)].
Qed.

Lemma strict_eq_VNum v n : strict_eq v (VNum n) = true <-> v = VNum n.
Proof.
  split.
  - destruct v; try discriminate. simpl. intros H. apply Z.eqb_eq in H. subst. reflexivity.
  - intros ->. simpl. apply Z.eqb_refl.
Qed.

(** The client delete button of the second snapshot ([renderClients],
    lines 876-889) removes the client at position [idx], and of the
    progress records it keeps exactly those whose [clientIndex] is not the
    number [idx] (those without a [clientIndex] included), in their order.
    The records it keeps are not renumbered: below [idx] a position still
    names the same client, past it a position now names the client that
    followed. *)
Theorem legacy_delete_shifts state idx cs ps recs rps st' :
  get state "clients" = Some (VArr cs ps) ->
  get state "progress" = Some (VArr recs rps) ->
  Legacy.deleteClient state idx = (st', Normal) ->
  get st' "clients" = Some (VArr (splice_one cs idx) ps) /\
  (exists recs', get st' "progress" = Some (VArr recs' []) /\
     recs' = filter (fun r => negb (strict_eq (get_or_undef r "clientIndex")
                                              (VNum (Z.of_nat idx)))) recs /\
     forall r, In r recs' <->
       In r recs /\ get r "clientIndex" <> Some (VNum (Z.of_nat idx))) /\
  (forall j, j < idx -> nth_error (splice_one cs idx) j = nth_error cs j) /\
  (forall j, idx < j -> nth_error (splice_one cs idx) j = nth_error cs (S j)).
Proof.
  intros Hcs Hrecs Hdel.
  pose proof (get_VArr_container _ _ _ _ Hcs) as Hcont.
  unfold Legacy.deleteClient in Hdel.
  rewrite (has_get_or_undef _ _ _ (get_VArr_has _ _ _ _ Hcs)) in Hdel.
  rewrite get_or_undef_set_neq in Hdel by discriminate.
  rewrite (has_get_or_undef _ _ _ (get_VArr_has _ _ _ _ Hrecs)) in Hdel.
  simpl filter_collection in Hdel at 1.
  destruct (filter_exn (differs_at "clientIndex" (VNum (Z.of_nat idx))) recs)
    as [recs'|] eqn:Hf; [|discriminate].
  destruct (filter_collection "clientIndex" (VNum (Z.of_nat idx)) _) as [ev|];
    [|discriminate].
  inversion Hdel; subst st'. clear Hdel.
  refine (conj _ (conj _ (conj _ _))).
  - rewrite get_set_neq, get_set_neq by discriminate.
    apply has_get, has_set_eq, Hcont.
  - exists recs'. split; [|split].
    + rewrite get_set_neq by discriminate.
      apply has_get, has_set_eq, is_container_set, Hcont.
    + apply (filter_exn_filter _ _ _ _ Hf). intros x _.
      unfold differs_at, get_or_undef.
      destruct (get x "clientIndex"); [reflexivity|contradiction].
    + intros r. split.
      * intros Hin. destruct (filter_exn_In _ _ _ _ Hf Hin) as [Hr Hd].
        split; [exact Hr|]. unfold differs_at in Hd.
        destruct (get r "clientIndex") as [v|]; [|discriminate].
        intros [= ->]. simpl in Hd. rewrite Z.eqb_refl in Hd. discriminate.
      * intros [Hr Hne]. apply (filter_exn_In_back _ _ _ _ Hf Hr).
        destruct (filter_exn_defined _ _ _ _ Hf Hr) as [b Hb].
        rewrite Hb. unfold differs_at in Hb.
        destruct (get r "clientIndex") as [v|]; [|discriminate].
        inversion Hb; subst b.
        destruct (strict_eq v (VNum (Z.of_nat idx))) eqn:Hv; [|reflexivity].
        apply strict_eq_VNum in Hv. subst v. contradiction.
  - intros j Hlt. rewrite nth_error_splice_one.
    destruct (Nat.ltb_spec j idx); [reflexivity|lia].
  - intros j Hlt. rewrite nth_error_splice_one.
    destruct (Nat.ltb_spec j idx); [lia|reflexivity].
Qed.

Lemma legacy_delete_shifts_witness :
  (exists recs', get (fst (Legacy.deleteClient Legacy.legacy_store 0)) "progress" =
                   Some (VArr recs' []) /\
                 In (VObj [("clientIndex", VNum 1); ("date", VStr "2024-01-02")]) recs') /\
  nth_error (splice_one [VObj [("name", VStr "Ann")]; VObj [("name", VStr "Bob")];
                         VObj [("name", VStr "Cy")]] 0) 1 =
    Some (VObj [("name", VStr "Cy")]).
Proof.
  destruct (legacy_delete_shifts Legacy.legacy_store 0
              [VObj [("name", VStr "Ann")]; VObj [("name", VStr "Bob")];
               VObj [("name", VStr "Cy")]] []
              [VObj [("clientIndex", VNum 0); ("date", VStr "2024-01-01")];
               VObj [("clientIndex", VNum 1); ("date", VStr "2024-01-02")];
               VObj [("clientIndex", VNum 2); ("date", VStr "2024-01-03")]] []
              (fst (Legacy.deleteClient Legacy.legacy_store 0)))
    as [_ [[recs' [Hp [_ Hiff]]] [_ Hshift]]].
  - reflexivity.
  - reflexivity.
  - vm_compute. reflexivity.
  - split.
    + exists recs'. split; [exact Hp|]. apply Hiff. split.
      * right. left. reflexivity.
      * discriminate.
    + rewrite Hshift by lia. reflexivity.
Defined.

End Facts.
